(** * Indian LOB exchange: order book, matching engine and compliance gate

    A shallow embedding of [indian_lob_exchange] (core/orders.py,
    core/order_book.py, core/matching_engine.py,
    indian_market/trading_sessions.py, indian_market/circuit_breakers.py,
    indian_market/sebi_compliance.py, exchange.py, agents/market_data.py),
    the properties of it that the specification states (C1 to C10), and
    further properties that the code itself shows (X1 to X28): what the
    trades of a submission are, what a submission does to the book, when it
    raises, and what every reachable book satisfies.

    Representation choices.
    - Python floats (prices, timestamps) are idealised as exact rationals in
      canonical form ([Qc]): equality of keys is equality of values, as for
      the float keys of a SortedDict. NaN and infinities have no counterpart.
    - Python ints (ids, quantities, counters) are [Z].
    - Object references are represented by keys. A resting [Order] is
      referred to by its [order_id] (OrderBook.add_order refuses a second
      order with the same id, so among resting orders the id identifies the
      object); a [Limit] is referred to by its side and price. The
      doubly-linked list of a level (head_order, next_order, prev_order,
      tail_order) is the list of the ids of its orders from head to tail.
      The mutable fields of a resting order live in one place only, the
      handle table [_orders], so that a change of [quantity] made by the
      matching engine is the one seen by [Limit.remove_order].
    - An exception that Python raises is an explicit outcome carrying the
      state as it is at the raise. What the source prints is not kept.
    - A LIMIT order is expected to carry a price. Without one the source
      raises TypeError, in [is_matchable] or in [OrderBook.add_order], except
      for a SELL that finds an empty ask side: SortedDict then accepts the
      key None and fails on the keys that follow. That one state has no
      counterpart here; [add_order] reports TypeError for it as well. *)

From Stdlib Require Import ZArith QArith Qcanon Qcabs Lqa.
From stdpp Require Import base option list gmap strings sorting.

#[local] Set Warnings "-clear-no-such-hyp".

Abbreviation float := Qc (only parsing).

(** ** core/orders.py *)

Inductive OrderSide := BUY | SELL.

Inductive OrderType := MARKET | LIMIT | STOP_LOSS | IOC | FOK.

#[global] Instance OrderSide_eq_dec : EqDecision OrderSide.
Proof. solve_decision. Defined.

#[global] Instance OrderType_eq_dec : EqDecision OrderType.
Proof. solve_decision. Defined.

Record Order := mkOrder {
  order_id : Z;
  agent_id : Z;
  side : OrderSide;
  quantity : Z;
  order_type : OrderType;
  timestamp : float;
  price : option float;
  trigger_price : option float;
  (* reference to the parent Limit, held as that level's price *)
  parent_limit : option float
}.

(** Order.__init__ *)
Definition Order_init (order_id agent_id : Z) (side : OrderSide) (quantity : Z)
    (order_type : OrderType) (timestamp : float)
    (price trigger_price : option float) : Order :=
  mkOrder order_id agent_id side quantity order_type timestamp price
          trigger_price None.

Definition set_quantity (o : Order) (q : Z) : Order :=
  mkOrder (order_id o) (agent_id o) (side o) q (order_type o) (timestamp o)
          (price o) (trigger_price o) (parent_limit o).

Definition set_parent_limit (o : Order) (p : option float) : Order :=
  mkOrder (order_id o) (agent_id o) (side o) (quantity o) (order_type o)
          (timestamp o) (price o) (trigger_price o) p.

(** OrderPool. Every pooled record is overwritten by [Order.__init__] when it
    is handed out, so only the number of pooled records is kept. *)
Module OrderPool.
Definition t := N.

Definition init (initial_size : N) : t := initial_size.

(** get_order: an empty pool is expanded by [len // 2 or 1000] records, then
    one record is popped. *)
Definition get_order (pool : t) : t :=
  if decide (pool = 0%N) then 999%N else N.pred pool.

Definition release_order (pool : t) : t := N.succ pool.
End OrderPool.

(** ** core/order_book.py *)

Record Limit := mkLimit {
  limit_price : float;
  total_volume : Z;
  order_count : Z;
  (* the linked list head_order .. tail_order, as order ids *)
  queue : list Z
}.

(** Limit.__init__ *)
Definition Limit_init (p : float) : Limit := mkLimit p 0%Z 0%Z [].

(** Limit.add_order: link at the tail, add the order's quantity to the
    level's volume, set the order's parent. *)
Definition Limit_add_order (l : Limit) (o : Order) : Limit * Order :=
  (mkLimit (limit_price l) (total_volume l + quantity o)%Z (order_count l + 1)%Z
           (queue l ++ [order_id o]),
   set_parent_limit o (Some (limit_price l))).

Fixpoint unlink (i : Z) (q : list Z) : list Z :=
  match q with
  | [] => []
  | j :: q' => if decide (j = i) then q' else j :: unlink i q'
  end.

(** Limit.remove_order: subtract the order's current quantity, unlink it,
    clear its parent. *)
Definition Limit_remove_order (l : Limit) (o : Order) : Limit * Order :=
  (mkLimit (limit_price l) (total_volume l - quantity o)%Z (order_count l - 1)%Z
           (unlink (order_id o) (queue l)),
   set_parent_limit o None).

(** A SortedDict from float keys to levels: a finite map, whose first item
    ([peekitem(0)]) is the one with the least key. *)
Abbreviation SortedDict := (gmap Qc Limit) (only parsing).

Definition first_item (kv : Qc * Limit) (acc : option (Qc * Limit)) :
    option (Qc * Limit) :=
  match acc with
  | None => Some kv
  | Some kv' => if decide (kv.1 ≤ kv'.1)%Qc then Some kv else Some kv'
  end.

Definition peekitem0 (d : SortedDict) : option (Qc * Limit) :=
  foldr first_item None (map_to_list d).

Record OrderBook := mkOrderBook {
  bids : SortedDict;
  asks : SortedDict;
  _orders : gmap Z Order
}.

(** OrderBook.__init__ *)
Definition OrderBook_init : OrderBook := mkOrderBook ∅ ∅ ∅.

Definition book_side (s : OrderSide) (b : OrderBook) : SortedDict :=
  match s with BUY => bids b | SELL => asks b end.

Definition set_book_side (s : OrderSide) (d : SortedDict) (b : OrderBook) :
    OrderBook :=
  match s with
  | BUY => mkOrderBook d (asks b) (_orders b)
  | SELL => mkOrderBook (bids b) d (_orders b)
  end.

Definition set_orders (m : gmap Z Order) (b : OrderBook) : OrderBook :=
  mkOrderBook (bids b) (asks b) m.

(** Bids are keyed by the negated price, asks by the price. *)
Definition book_key (s : OrderSide) (p : float) : Qc :=
  match s with BUY => (- p)%Qc | SELL => p end.

Inductive exn := TypeError | ValueError | ZeroDivisionError | IndexError.

Inductive result (A : Type) :=
| Ok (a : A)
| Err (e : exn).
Arguments Ok {A} a.
Arguments Err {A} e.

(** OrderBook.add_order. A duplicate id raises ValueError. An order without a
    price raises TypeError on the bid side ([-price]) and is reported as
    TypeError on the ask side as well: there SortedDict would have to order
    the key [None] against float keys, which raises as soon as the side holds
    another key. Nothing is mutated before either raise. *)
Definition add_order (b : OrderBook) (o : Order) : result OrderBook :=
  if decide (is_Some (_orders b !! order_id o)) then Err ValueError
  else
    match price o with
    | None => Err TypeError
    | Some p =>
        let key := book_key (side o) p in
        let d := book_side (side o) b in
        let limit_level := default (Limit_init p) (d !! key) in
        let '(l', o') := Limit_add_order limit_level o in
        Ok (set_orders (<[order_id o := o']> (_orders b))
                       (set_book_side (side o) (<[key := l']> d) b))
    end.

(** OrderBook.cancel_order. The parent level is reached through the order's
    side and the parent's price; a level that is no longer in its side map can
    no longer be seen from the book, and the book is then left as it is. *)
Definition cancel_order (b : OrderBook) (id : Z) : option Order * OrderBook :=
  match _orders b !! id with
  | None => (None, b)
  | Some order =>
      let b1 := set_orders (delete id (_orders b)) b in
      match parent_limit order with
      | None => (Some order, b1)
      | Some lp =>
          let key := book_key (side order) lp in
          let d := book_side (side order) b1 in
          match d !! key with
          | None => (Some order, b1)
          | Some limit_level =>
              let '(l', order') := Limit_remove_order limit_level order in
              let d' := if decide (order_count l' = 0%Z)
                        then delete key d else <[key := l']> d in
              (Some order', set_book_side (side order) d' b1)
          end
      end
  end.

(** OrderBook.best_bid, OrderBook.best_ask *)
Definition best_bid (b : OrderBook) : option float :=
  (λ kv, limit_price kv.2) <$> peekitem0 (bids b).

Definition best_ask (b : OrderBook) : option float :=
  (λ kv, limit_price kv.2) <$> peekitem0 (asks b).

(** OrderBook.get_order *)
Definition get_order (b : OrderBook) (id : Z) : option Order := _orders b !! id.

(** ** core/matching_engine.py *)

Record Trade := mkTrade {
  maker_order_id : Z;
  taker_order_id : Z;
  trade_price : float;
  trade_quantity : Z;
  trade_timestamp : float
}.

Inductive outcome (A S : Type) :=
| Returned (a : A) (s : S)      (* normal return, with the state left behind *)
| Raised (e : exn) (s : S)      (* exception, with the state left behind *)
| Diverged.                     (* the loop bound was used up *)
Arguments Returned {A S} a s.
Arguments Raised {A S} e s.
Arguments Diverged {A S}.

(** The objects [match_order] works on: the book, the incoming order (mutated
    in place), and the two lists it builds. *)
Record MatchState := mkMatchState {
  ms_book : OrderBook;
  ms_incoming : Order;
  ms_trades : list Trade;
  ms_filled : list Order
}.

Definition opposite (s : OrderSide) : OrderSide :=
  match s with BUY => SELL | SELL => BUY end.

(** [book_to_match]: asks for a BUY, bids for a SELL. *)
Definition book_to_match (b : OrderBook) (incoming : Order) : SortedDict :=
  book_side (opposite (side incoming)) b.

(** The two [is_matchable] lambdas. [best and price >= best] is falsy when the
    side is empty and when the best price is 0.0; otherwise the comparison
    is made, which raises TypeError for an absent price. *)
Definition is_matchable (b : OrderBook) (s : OrderSide) (p : option float) :
    result bool :=
  let best := match s with BUY => best_ask b | SELL => best_bid b end in
  match best with
  | None => Ok false
  | Some bp =>
      if decide (bp = 0%Qc) then Ok false
      else
        match p with
        | None => Err TypeError
        | Some p =>
            Ok (match s with
                | BUY => bool_decide (bp ≤ p)%Qc
                | SELL => bool_decide (p ≤ bp)%Qc
                end)
        end
  end.

(** [price_condition]: the limit test for a LIMIT order, non-emptiness of the
    opposite side for every other order type. *)
Definition price_condition (b : OrderBook) (incoming : Order) : result bool :=
  if decide (order_type incoming = LIMIT)
  then is_matchable b (side incoming) (price incoming)
  else Ok (bool_decide (book_to_match b incoming ≠ ∅)).

Definition sub_volume (q : Z) (l : Limit) : Limit :=
  mkLimit (limit_price l) (total_volume l - q)%Z (order_count l) (queue l).

(** One fill of the resting order [current] (handle [i]) of the level of side
    [ms] at [key]: [best_price_limit.total_volume -= trade_quantity] and
    [current_order_node.quantity -= trade_quantity]. *)
Definition fill_maker (b : OrderBook) (ms : OrderSide) (key : Qc) (i : Z)
    (current : Order) (trade_q : Z) : OrderBook :=
  let b1 := set_book_side ms (alter (sub_volume trade_q) key (book_side ms b))
              b in
  set_orders
    (<[i := set_quantity current (quantity current - trade_q)%Z]> (_orders b1))
    b1.

(** The inner loop over the orders of [best_price_limit], the level of side
    [ms] at [key]. [nodes] is what is left of the walk along [next_order]:
    each node's successor is read before the node is cancelled, so the walk
    follows the queue as it was when the walk started. A node is resolved
    through the handle table, where every queued order of a well-formed book
    is found (the walk stops at a node that is not). *)
Fixpoint walk_level (nodes : list Z) (ms : OrderSide) (key : Qc) (lp : float)
    (st : MatchState) : MatchState :=
  match nodes with
  | [] => st
  | i :: next =>
      let incoming := ms_incoming st in
      if bool_decide (0 < quantity incoming)%Z then
        match _orders (ms_book st) !! i with
        | None => st
        | Some current =>
            let trade_q := Z.min (quantity incoming) (quantity current) in
            let trade := mkTrade (order_id current) (order_id incoming) lp
                                 trade_q (timestamp incoming) in
            let incoming' :=
              set_quantity incoming (quantity incoming - trade_q)%Z in
            let current' :=
              set_quantity current (quantity current - trade_q)%Z in
            let b2 := fill_maker (ms_book st) ms key i current trade_q in
            if decide (quantity current' = 0%Z) then
              let '(cancelled, b3) := cancel_order b2 (order_id current') in
              walk_level next ms key lp
                (mkMatchState b3 incoming' (ms_trades st ++ [trade])
                   (ms_filled st ++ [default current' cancelled]))
            else
              walk_level next ms key lp
                (mkMatchState b2 incoming' (ms_trades st ++ [trade])
                   (ms_filled st))
        end
      else st
  end.

(** The outer [while incoming_order.quantity > 0 and price_condition] loop.
    [cond] is the value of [price_condition] computed before the test: once
    before the loop, then at the end of every pass. [fuel] bounds the number
    of times the test is evaluated. *)
Fixpoint match_loop (fuel : nat) (cond : bool) (st : MatchState) :
    outcome unit MatchState :=
  match fuel with
  | O => Diverged
  | S fuel' =>
      if bool_decide (0 < quantity (ms_incoming st))%Z && cond then
        match peekitem0 (book_to_match (ms_book st) (ms_incoming st)) with
        | None => Raised IndexError st
        | Some (key, best_price_limit) =>
            let st' := walk_level (queue best_price_limit)
                         (opposite (side (ms_incoming st))) key
                         (limit_price best_price_limit) st in
            match price_condition (ms_book st') (ms_incoming st') with
            | Err e => Raised e st'
            | Ok cond' => match_loop fuel' cond' st'
            end
        end
      else Returned () st
  end.

(** MatchingEngine.match_order. The value returned is the pair
    [(trades, filled_maker_orders)]; the state left behind is the book. Each
    pass of the outer loop that does not exhaust the incoming order empties
    the level it visits, so one more test than there are levels on the
    opposite side is all a well-formed book needs ([match_order_spec]
    below). *)
Definition match_order (b : OrderBook) (incoming_order : Order) :
    outcome (list Trade * list Order) OrderBook :=
  match price_condition b incoming_order with
  | Err e => Raised e b
  | Ok cond =>
      match match_loop (S (size (book_to_match b incoming_order))) cond
                       (mkMatchState b incoming_order [] []) with
      | Diverged => Diverged
      | Raised e st => Raised e (ms_book st)
      | Returned _ st =>
          let incoming := ms_incoming st in
          if bool_decide (0 < quantity incoming)%Z
             && bool_decide (order_type incoming = LIMIT) then
            match add_order (ms_book st) incoming with
            | Err e => Raised e (ms_book st)
            | Ok b' => Returned (ms_trades st, ms_filled st) b'
            end
          else Returned (ms_trades st, ms_filled st) (ms_book st)
      end
  end.

(** ** indian_market/trading_sessions.py *)

(** datetime.time, compared field by field. *)
Record time := mk_time {
  hour : nat;
  minute : nat;
  second : nat;
  microsecond : nat
}.

Definition time_ltb (a b : time) : bool :=
  if bool_decide (hour a = hour b) then
    if bool_decide (minute a = minute b) then
      if bool_decide (second a = second b) then
        bool_decide (microsecond a < microsecond b)%nat
      else bool_decide (second a < second b)%nat
    else bool_decide (minute a < minute b)%nat
  else bool_decide (hour a < hour b)%nat.

Definition time_leb (a b : time) : bool := negb (time_ltb b a).

Inductive Session := pre_market | regular | post_market | closed.

Module TradingSessionManager.
Definition PRE_MARKET_START := mk_time 9 0 0 0.
Definition PRE_MARKET_END := mk_time 9 15 0 0.
Definition REGULAR_START := mk_time 9 15 0 0.
Definition REGULAR_END := mk_time 15 30 0 0.
Definition POST_MARKET_START := mk_time 15 40 0 0.
Definition POST_MARKET_END := mk_time 16 0 0 0.

Definition SESSION_RULES (s : Session) : list OrderType :=
  match s with
  | pre_market => [LIMIT; MARKET]
  | regular => [LIMIT; MARKET; STOP_LOSS; IOC]
  | post_market => [LIMIT]
  | closed => []
  end.

(** get_current_session returns "regular" before anything else; the window
    tests that follow the return are commented out in the source. *)
Definition get_current_session (current_time : time) : Session := regular.

Definition is_order_allowed (ot : OrderType) (current_time : time) : bool :=
  let session := get_current_session current_time in
  bool_decide (ot ∈ SESSION_RULES session).

Definition get_allowed_orders (current_time : time) : list OrderType :=
  SESSION_RULES (get_current_session current_time).
End TradingSessionManager.

(** ** indian_market/circuit_breakers.py *)

Inductive HaltAction :=
| minutes (n : Z)
| close_market
| halt_for_day.

(** The dictionary returned by check_index_circuit_breaker; the keys "level"
    and "action" are present only in some of the cases. *)
Record HaltInfo := mkHaltInfo {
  triggered : bool;
  level : option float;
  action : option HaltAction
}.

Record CircuitBreakerMonitor := mkCircuitBreakerMonitor {
  reference_price : float;
  stock_category : string;
  market_halted : bool;
  halt_end_time : option time;
  _price_band : float;
  upper_band : float;
  lower_band : float
}.

Definition pct (n : Z) : float := Q2Qc (n # 100).

(** STOCK_PRICE_BANDS.get(stock_category, default), unwrapping the "band" of
    the fno_stocks entry. *)
Definition _get_price_band (stock_category : string) : float :=
  if decide (stock_category = "category_1") then pct 2
  else if decide (stock_category = "category_2") then pct 5
  else if decide (stock_category = "category_3") then pct 10
  else if decide (stock_category = "fno_stocks") then pct 10
  else pct 20.

(** CircuitBreakerMonitor.__init__ *)
Definition CircuitBreakerMonitor_init (reference_price : float)
    (stock_category : string) : CircuitBreakerMonitor :=
  let band := _get_price_band stock_category in
  mkCircuitBreakerMonitor reference_price stock_category false None band
    (reference_price * (1 + band))%Qc (reference_price * (1 - band))%Qc.

Definition check_price_band (cb : CircuitBreakerMonitor) (order_price : float) :
    bool :=
  bool_decide (lower_band cb ≤ order_price)%Qc
  && bool_decide (order_price ≤ upper_band cb)%Qc.

(** INDEX_CIRCUIT_BREAKERS: the entries of the 10% and 15% levels (the 20%
    level is the plain action "halt_for_day"). *)
Record HaltDurations := mkHaltDurations {
  before_1pm : HaltAction;
  from_1pm_to_230pm : HaltAction;
  after_230pm : HaltAction
}.

Definition INDEX_CIRCUIT_BREAKERS_10 : HaltDurations :=
  mkHaltDurations (minutes 45) (minutes 15) (minutes 0).

Definition INDEX_CIRCUIT_BREAKERS_15 : HaltDurations :=
  mkHaltDurations (minutes 105) (minutes 45) close_market.

Definition halt_action (halt_info : HaltDurations) (current_time : time) :
    HaltAction :=
  if time_ltb current_time (mk_time 13 0 0 0) then before_1pm halt_info
  else if time_leb (mk_time 13 0 0 0) current_time
          && time_ltb current_time (mk_time 14 30 0 0)
  then from_1pm_to_230pm halt_info
  else after_230pm halt_info.

(** check_index_circuit_breaker. Dividing by a reference price of zero raises
    ZeroDivisionError. *)
Definition check_index_circuit_breaker (cb : CircuitBreakerMonitor)
    (current_price : float) (current_time : time) : result HaltInfo :=
  if decide (reference_price cb = 0%Qc) then Err ZeroDivisionError
  else
    let price_change :=
      (Qcabs (current_price - reference_price cb) / reference_price cb)%Qc in
    if bool_decide (pct 20 ≤ price_change)%Qc then
      Ok (mkHaltInfo true None (Some halt_for_day))
    else if bool_decide (pct 15 ≤ price_change)%Qc then
      Ok (mkHaltInfo true (Some (pct 15))
            (Some (halt_action INDEX_CIRCUIT_BREAKERS_15 current_time)))
    else if bool_decide (pct 10 ≤ price_change)%Qc then
      Ok (mkHaltInfo true (Some (pct 10))
            (Some (halt_action INDEX_CIRCUIT_BREAKERS_10 current_time)))
    else Ok (mkHaltInfo false None None).

(** ** indian_market/sebi_compliance.py *)

(** The reason strings, with the values that the source formats into them. *)
Inductive Reason :=
| market_is_halted
    (* "Market is halted due to circuit breaker." *)
| not_allowed_in_session (ot : OrderType) (session : Session)
    (* "{order_type.name} orders not allowed in {session} session." *)
| outside_price_band (p lower upper : float)
    (* "Price {price} is outside the price band ({lower} - {upper})." *)
| order_is_compliant
    (* "Order is compliant." *)
| order_accepted.
    (* "Order accepted." *)

(** SEBIComplianceEngine: a stateless session manager and a circuit breaker
    monitor. *)
Record SEBIComplianceEngine := mkSEBIComplianceEngine {
  circuit_breaker : CircuitBreakerMonitor
}.

Definition SEBIComplianceEngine_init (reference_price : float)
    (stock_category : string) : SEBIComplianceEngine :=
  mkSEBIComplianceEngine
    (CircuitBreakerMonitor_init reference_price stock_category).

(** The truth value of [order.price]: false for None and for 0.0. *)
Definition truthy (p : option float) : bool :=
  match p with
  | None => false
  | Some p => bool_decide (p ≠ 0%Qc)
  end.

Definition validate_order (ce : SEBIComplianceEngine) (order : Order)
    (current_time : time) : bool * Reason :=
  let cb := circuit_breaker ce in
  if market_halted cb then (false, market_is_halted)
  else if negb (TradingSessionManager.is_order_allowed (order_type order)
                  current_time)
  then (false, not_allowed_in_session (order_type order)
                 (TradingSessionManager.get_current_session current_time))
  else
    match price order with
    | Some p =>
        if truthy (price order) && negb (check_price_band cb p)
        then (false, outside_price_band p (lower_band cb) (upper_band cb))
        else (true, order_is_compliant)
    | None => (true, order_is_compliant)
    end.

(** post_trade_check evaluates the index breaker and, when it is triggered,
    prints the halt information; the two assignments that would halt the
    market are comments in the source. The engine is returned as it was. *)
Definition post_trade_check (ce : SEBIComplianceEngine) (trade_price : float)
    (current_time : time) : result SEBIComplianceEngine :=
  match check_index_circuit_breaker (circuit_breaker ce) trade_price
          current_time with
  | Err e => Err e
  | Ok halt_info => if triggered halt_info then Ok ce else Ok ce
  end.

(** ** exchange.py *)

(** The matching engine holds the exchange's own order book and a trade
    counter that nothing advances; it has no field here. *)
Record Exchange := mkExchange {
  order_book : OrderBook;
  compliance_engine : SEBIComplianceEngine;
  order_pool : OrderPool.t;
  _order_id_counter : Z
}.

(** Exchange.__init__ *)
Definition Exchange_init (reference_price : float) (stock_category : string) :
    Exchange :=
  mkExchange OrderBook_init
    (SEBIComplianceEngine_init reference_price stock_category)
    (OrderPool.init 100000%N) 0%Z.

(** Exchange.submit_order. The clock reading [datetime.now()] is an input:
    [current_time] is its time of day and [timestamp] its POSIX timestamp. *)
Definition submit_order (ex : Exchange) (current_time : time)
    (timestamp : float) (agent_id : Z) (side : OrderSide) (quantity : Z)
    (order_type : OrderType) (price trigger_price : option float) :
    outcome (bool * Reason * list Trade) Exchange :=
  let order_id := (_order_id_counter ex + 1)%Z in
  let order := Order_init order_id agent_id side quantity order_type timestamp
                 price trigger_price in
  let pool := OrderPool.get_order (order_pool ex) in
  let '(is_valid, reason) :=
    validate_order (compliance_engine ex) order current_time in
  if negb is_valid then
    Returned (false, reason, [])
      (mkExchange (order_book ex) (compliance_engine ex)
         (OrderPool.release_order pool) order_id)
  else
    match match_order (order_book ex) order with
    | Diverged => Diverged
    | Raised e b => Raised e (mkExchange b (compliance_engine ex) pool order_id)
    | Returned (trades, _) b =>
        match last trades with
        | Some t =>
            match post_trade_check (compliance_engine ex) (trade_price t)
                    current_time with
            | Err e =>
                Raised e (mkExchange b (compliance_engine ex) pool order_id)
            | Ok ce' =>
                Returned (true, order_accepted, trades)
                  (mkExchange b ce' pool order_id)
            end
        | None =>
            Returned (true, order_accepted, trades)
              (mkExchange b (compliance_engine ex) pool order_id)
        end
    end.

(** Exchange.cancel_order *)
Definition Exchange_cancel_order (ex : Exchange) (order_id : Z) :
    bool * Exchange :=
  match cancel_order (order_book ex) order_id with
  | (Some cancelled_order, b) =>
      (true, mkExchange b (compliance_engine ex)
               (OrderPool.release_order (order_pool ex))
               (_order_id_counter ex))
  | (None, b) => (false, mkExchange b (compliance_engine ex) (order_pool ex)
                           (_order_id_counter ex))
  end.

(** ** agents/market_data.py *)

(** MarketDataFeed keeps its subscribers in a list. Agents are compared as
    [agent not in self._subscribers] and [list.remove] compare them: by an
    equality that can be decided (the identity of the object, for an Agent
    that defines no other). *)
Record MarketDataFeed (A : Type) := mkMarketDataFeed {
  _subscribers : list A
}.
Arguments mkMarketDataFeed {A} _.
Arguments _subscribers {A} _.

(** MarketDataFeed.__init__ *)
Definition MarketDataFeed_init {A : Type} : MarketDataFeed A :=
  mkMarketDataFeed [].

(** MarketDataFeed.subscribe: append, unless the agent is in the list. *)
Definition subscribe {A : Type} `{EqDecision A} (f : MarketDataFeed A)
    (agent : A) : MarketDataFeed A :=
  if decide (agent ∈ _subscribers f) then f
  else mkMarketDataFeed (_subscribers f ++ [agent]).

(** [list.remove]: the first item equal to [x] is removed; ValueError when
    there is none. *)
Fixpoint list_remove {A : Type} `{EqDecision A} (x : A) (l : list A) :
    result (list A) :=
  match l with
  | [] => Err ValueError
  | y :: l' =>
      if decide (y = x) then Ok l'
      else match list_remove x l' with
           | Ok l'' => Ok (y :: l'')
           | Err e => Err e
           end
  end.

(** MarketDataFeed.unsubscribe *)
Definition unsubscribe {A : Type} `{EqDecision A} (f : MarketDataFeed A)
    (agent : A) : result (MarketDataFeed A) :=
  match list_remove agent (_subscribers f) with
  | Ok l => Ok (mkMarketDataFeed l)
  | Err e => Err e
  end.

(** The feeds that calls of [subscribe] and [unsubscribe] lead to. *)
Inductive feed_reachable {A : Type} `{EqDecision A} :
    MarketDataFeed A → Prop :=
| feed_reachable_init : feed_reachable MarketDataFeed_init
| feed_reachable_subscribe f agent :
    feed_reachable f → feed_reachable (subscribe f agent)
| feed_reachable_unsubscribe f agent f' :
    feed_reachable f → unsubscribe f agent = Ok f' → feed_reachable f'.

(** A feed with the agents 1 and 2, in that order. *)
Definition feed_12 : MarketDataFeed Z :=
  subscribe (subscribe MarketDataFeed_init 1%Z) 2%Z.

(** ** Well-formed books and reachable exchanges *)

(** The sum of the remaining quantities of the orders of a queue. *)
Definition queue_volume (m : gmap Z Order) (q : list Z) : Z :=
  foldr (λ i acc, (from_option quantity 0 (m !! i) + acc)%Z) 0%Z q.

(** What a level of side [s] stored under key [k] has to satisfy with respect
    to the handle table [m]. *)
Record level_wf (m : gmap Z Order) (s : OrderSide) (k : Qc) (l : Limit) :
    Prop := mk_level_wf {
  lw_key : k = book_key s (limit_price l);
  lw_nodup : NoDup (queue l);
  lw_nonempty : queue l ≠ [];
  lw_orders : ∀ i, i ∈ queue l →
    ∃ o, m !! i = Some o ∧ side o = s ∧ parent_limit o = Some (limit_price l);
  lw_volume : total_volume l = queue_volume m (queue l);
  lw_count : order_count l = Z.of_nat (length (queue l))
}.

Record book_wf (b : OrderBook) : Prop := mk_book_wf {
  bw_levels : ∀ s k l, book_side s b !! k = Some l → level_wf (_orders b) s k l;
  bw_orders : ∀ i o, _orders b !! i = Some o →
    order_id o = i ∧ (0 < quantity o)%Z ∧
    ∃ lp l, parent_limit o = Some lp ∧
            book_side (side o) b !! book_key (side o) lp = Some l ∧
            i ∈ queue l
}.

(** Order ids are handed out by a counter: every resting id is at most it. *)
Definition ids_bounded (n : Z) (b : OrderBook) : Prop :=
  ∀ i, is_Some (_orders b !! i) → (i ≤ n)%Z.

Definition exchange_wf (ex : Exchange) : Prop :=
  book_wf (order_book ex) ∧ ids_bounded (_order_id_counter ex) (order_book ex).

(** One call of the facade: a submission that returns, a submission that
    raises, or a cancellation. *)
Inductive step : Exchange → Exchange → Prop :=
| step_submit ex t ts a s q ot p tp r ex' :
    submit_order ex t ts a s q ot p tp = Returned r ex' → step ex ex'
| step_submit_raised ex t ts a s q ot p tp e ex' :
    submit_order ex t ts a s q ot p tp = Raised e ex' → step ex ex'
| step_cancel ex id :
    step ex (Exchange_cancel_order ex id).2.

Inductive reachable : Exchange → Prop :=
| reachable_init reference_price stock_category :
    reachable (Exchange_init reference_price stock_category)
| reachable_step ex ex' : reachable ex → step ex ex' → reachable ex'.

(** ** Definitions that follow the specification's words *)

(** Section 4.E: pre-market [09:00, 09:15), regular [09:15, 15:30),
    post-market [15:40, 16:00), else closed. *)
Definition spec_session (t : time) : Session :=
  if time_leb (mk_time 9 0 0 0) t && time_ltb t (mk_time 9 15 0 0)
  then pre_market
  else if time_leb (mk_time 9 15 0 0) t && time_ltb t (mk_time 15 30 0 0)
  then regular
  else if time_leb (mk_time 15 40 0 0) t && time_ltb t (mk_time 16 0 0 0)
  then post_market
  else closed.

(** Section 4.D, FOK pre-check: the resting volume of the opposite side at
    the prices a limit price [p] accepts. *)
Definition spec_acceptable (s : OrderSide) (p : float) (l : Limit) : bool :=
  match s with
  | BUY => bool_decide (limit_price l ≤ p)%Qc
  | SELL => bool_decide (p ≤ limit_price l)%Qc
  end.

Definition spec_fok_available (b : OrderBook) (s : OrderSide) (p : float) : Z :=
  foldr (λ kv acc, (if spec_acceptable s p kv.2 then total_volume kv.2 else 0)
                   + acc)%Z
        0%Z (map_to_list (book_side (opposite s) b)).

(** ** Auxiliary definitions *)

(** The level of side [ms] at [key] holds exactly [nodes]; an empty level
    is not in its side. *)
Definition level_is (b : OrderBook) (ms : OrderSide) (key : Qc)
    (nodes : list Z) : Prop :=
  match nodes with
  | [] => book_side ms b !! key = None
  | _ :: _ => ∃ l, book_side ms b !! key = Some l ∧ queue l = nodes
  end.

Definition set_order_type (o : Order) (ot : OrderType) : Order :=
  mkOrder (order_id o) (agent_id o) (side o) (quantity o) ot (timestamp o)
          (price o) (trigger_price o) (parent_limit o).

(** The same matching state for the incoming order seen as of type [ot]. *)
Definition retype (ot : OrderType) (st : MatchState) : MatchState :=
  mkMatchState (ms_book st) (set_order_type (ms_incoming st) ot)
               (ms_trades st) (ms_filled st).

Definition outcome_map {A S S' : Type} (f : S → S') (r : outcome A S) :
    outcome A S' :=
  match r with
  | Returned a s => Returned a (f s)
  | Raised e s => Raised e (f s)
  | Diverged => Diverged
  end.

(** ** Scenarios *)

Definition px (n : Z) : float := Q2Qc (n # 1).

Definition ten_am : time := mk_time 10 0 0 0.

(** The exchange a submission leaves behind, however it ends. *)
Definition run_submit (ex : Exchange) (t : time) (ts : float) (a : Z)
    (s : OrderSide) (q : Z) (ot : OrderType) (p tp : option float) : Exchange :=
  match submit_order ex t ts a s q ot p tp with
  | Returned _ ex' | Raised _ ex' => ex'
  | Diverged => ex
  end.

(** Scenario S1 of the specification: reference price 100, F&O category,
    BUY 10 @ 99, BUY 5 @ 98, SELL 8 @ 101, SELL 12 @ 102. *)
Definition scenario_S1 : Exchange :=
  let ex0 := Exchange_init (px 100) "fno_stocks" in
  let ex1 := run_submit ex0 ten_am (px 0) 1 BUY 10 LIMIT (Some (px 99)) None in
  let ex2 := run_submit ex1 ten_am (px 0) 2 BUY 5 LIMIT (Some (px 98)) None in
  let ex3 := run_submit ex2 ten_am (px 0) 3 SELL 8 LIMIT (Some (px 101)) None in
  run_submit ex3 ten_am (px 0) 4 SELL 12 LIMIT (Some (px 102)) None.

(** Scenario S2: then MARKET BUY 10, which fills order 3 and part of order 4. *)
Definition scenario_S2 : Exchange :=
  run_submit scenario_S1 ten_am (px 0) 5 BUY 10 MARKET None None.

(** Scenario S3: then cancel order 2. *)
Definition scenario_S3 : Exchange := (Exchange_cancel_order scenario_S2 2).2.

(** Scenario S4: then LIMIT BUY 10 @ 111, outside the 10% band. *)
Definition scenario_S4 : Exchange :=
  run_submit scenario_S3 ten_am (px 0) 6 BUY 10 LIMIT (Some (px 111)) None.

(** The FOK order of scenario S6. *)
Definition fok_S6 : Order :=
  Order_init 5 5 BUY 25 FOK (px 0) (Some (px 102)) None.

(** Reference price 100 in the default category (band 20%), with one resting
    SELL 5 @ 112. *)
Definition scenario_far_ask : Exchange :=
  run_submit (Exchange_init (px 100) "default") ten_am (px 0) 1 SELL 5 LIMIT
    (Some (px 112)) None.

(** Scenario S5: then LIMIT BUY 15 @ 102, which takes the 10 left of order 4
    and rests with the 5 that are left of it. *)
Definition scenario_S5 : Exchange :=
  run_submit scenario_S4 ten_am (px 0) 7 BUY 15 LIMIT (Some (px 102)) None.

(** The trades of scenarios S2 and S5. *)
Definition trades_S2 : list Trade :=
  [mkTrade 3 5 (px 101) 8 (px 0); mkTrade 4 5 (px 102) 2 (px 0)].

Definition trades_S5 : list Trade := [mkTrade 4 7 (px 102) 10 (px 0)].

(** The incoming order of scenario S2, and the order it fills. *)
Definition order_S2 : Order := Order_init 5 5 BUY 10 MARKET (px 0) None None.

Definition filled_S2 : list Order :=
  [mkOrder 3 3 SELL 0 LIMIT (px 0) (Some (px 101)) None None].

(** An order to add to the book of scenario S1 at a price of its own. *)
Definition order_97 : Order :=
  Order_init 9 9 BUY 5 LIMIT (px 0) (Some (px 97)) None.

(** An exchange with one resting order, SELL 5 at the price 0.0, and the
    LIMIT BUY 3 @ 99 that is submitted to it next. *)
Definition scenario_zero_ask : Exchange :=
  run_submit (Exchange_init (px 100) "fno_stocks") ten_am (px 0) 1 SELL 5 LIMIT
    (Some (px 0)) None.

Definition order_zero_ask : Order :=
  Order_init 2 2 BUY 3 LIMIT (px 0) (Some (px 99)) None.

(** ** Exchanges reached without a LIMIT order at the price 0.0 *)

Inductive reachable_nz : Exchange → Prop :=
| reachable_nz_init reference_price stock_category :
    reachable_nz (Exchange_init reference_price stock_category)
| reachable_nz_submit ex t ts a s q ot p tp r ex' :
    reachable_nz ex → (ot = LIMIT → p ≠ Some 0%Qc) →
    submit_order ex t ts a s q ot p tp = Returned r ex' → reachable_nz ex'
| reachable_nz_raised ex t ts a s q ot p tp e ex' :
    reachable_nz ex → (ot = LIMIT → p ≠ Some 0%Qc) →
    submit_order ex t ts a s q ot p tp = Raised e ex' → reachable_nz ex'
| reachable_nz_cancel ex id :
    reachable_nz ex → reachable_nz (Exchange_cancel_order ex id).2.

(** No level is at the price 0.0, and every bid is below every ask. *)
Definition uncrossed (b : OrderBook) : Prop :=
  (∀ s k, k ∈ dom (book_side s b) → k ≠ 0%Qc)
  ∧ ∀ kb ka, kb ∈ dom (bids b) → ka ∈ dom (asks b) → (- kb < ka)%Qc.


(** ** What a call of [match_order] leaves behind *)

(** The total quantity of a list of trades. *)
Definition sum_trades (trades : list Trade) : Z :=
  foldr (λ t acc, (trade_quantity t + acc)%Z) 0%Z trades.

(** [m'] holds some of the orders of [m], each of them as it is in [m] but
    for its quantity, which has not grown. *)
Definition store_le (m' m : gmap Z Order) : Prop :=
  ∀ j o', m' !! j = Some o' →
    ∃ o, m !! j = Some o ∧ o' = set_quantity o (quantity o')
         ∧ (quantity o' ≤ quantity o)%Z.

(** Every resting order is a LIMIT order and rests at its own price. *)
Definition resting_limit (b : OrderBook) : Prop :=
  ∀ i o, _orders b !! i = Some o →
    order_type o = LIMIT ∧ price o = parent_limit o.

(** The price [lp] is acceptable to an order of side [s] with limit [p]. *)
Definition within_limit (s : OrderSide) (p lp : float) : Prop :=
  match s with BUY => (lp ≤ p)%Qc | SELL => (p ≤ lp)%Qc end.

(** A trade of the incoming order [inc] against an order of [m0]: it bears
    the id and the timestamp of [inc], a positive quantity that the maker
    had, and the price of the level the maker was queued in. *)
Definition trade_ok (m0 : gmap Z Order) (inc : Order) (t : Trade) : Prop :=
  taker_order_id t = order_id inc
  ∧ trade_timestamp t = timestamp inc
  ∧ (0 < trade_quantity t)%Z
  ∧ ∃ m, m0 !! maker_order_id t = Some m
         ∧ side m = opposite (side inc)
         ∧ parent_limit m = Some (trade_price t)
         ∧ (trade_quantity t ≤ quantity m)%Z.

(** The key under which the level a trade was made at is stored. *)
Definition trade_key (inc : Order) (t : Trade) : Qc :=
  book_key (opposite (side inc)) (trade_price t).

(** The quantity an id stands for in a handle table: 0 when it is absent. *)
Definition resting_quantity (m : gmap Z Order) (j : Z) : Z :=
  from_option quantity 0%Z (m !! j).

(** The quantity traded against the maker [j]. *)
Definition traded (j : Z) (trades : list Trade) : Z :=
  sum_trades (filter (λ t, maker_order_id t = j) trades).

(** The price [lp] is one a LIMIT order [inc] accepts; any price is for an
    order of another type. *)
Definition limit_ok (inc : Order) (lp : float) : Prop :=
  order_type inc = LIMIT →
  ∃ p, price inc = Some p ∧ within_limit (side inc) p lp.

(** One pass of the body of the inner loop, for the node [i] resolved to the
    resting order [m] of a well-formed book: the trade, and either the
    cancellation of an exhausted maker or its partial fill. *)
Definition fill_step (ms : OrderSide) (key : Qc) (lp : float) (i : Z)
    (m : Order) (st : MatchState) : MatchState :=
  let inc := ms_incoming st in
  let q := Z.min (quantity inc) (quantity m) in
  let trade := mkTrade i (order_id inc) lp q (timestamp inc) in
  let inc' := set_quantity inc (quantity inc - q)%Z in
  if decide (quantity m ≤ quantity inc)%Z then
    mkMatchState (cancel_order (ms_book st) i).2 inc' (ms_trades st ++ [trade])
      (ms_filled st
       ++ [set_parent_limit (set_quantity m (quantity m - quantity m)%Z) None])
  else
    mkMatchState (fill_maker (ms_book st) ms key i m q) inc'
      (ms_trades st ++ [trade]) (ms_filled st).

(** What holds whenever the inner loop is at the nodes [nodes] of the level
    of side [ms] at [key], of price [lp]. *)
Record walk_pre (ms : OrderSide) (key : Qc) (lp : float) (nodes : list Z)
    (st : MatchState) : Prop := mk_walk_pre {
  wp_wf : book_wf (ms_book st);
  wp_side : ms = opposite (side (ms_incoming st));
  wp_key : key = book_key ms lp;
  wp_least : ∀ k, k ∈ dom (book_side ms (ms_book st)) → (key ≤ k)%Qc;
  wp_price : limit_ok (ms_incoming st) lp;
  wp_level : (quantity (ms_incoming st) ≤ 0)%Z
             ∨ level_is (ms_book st) ms key nodes
}.

(** What holds when the body of the inner loop is entered for the node [i],
    which stands for the order [m]. *)
Record step_pre (ms : OrderSide) (key : Qc) (lp : float) (i : Z) (m : Order)
    (next : list Z) (st : MatchState) : Prop := mk_step_pre {
  sp_wf : book_wf (ms_book st);
  sp_side : ms = opposite (side (ms_incoming st));
  sp_key : key = book_key ms lp;
  sp_least : ∀ k, k ∈ dom (book_side ms (ms_book st)) → (key ≤ k)%Qc;
  sp_price : limit_ok (ms_incoming st) lp;
  sp_pos : (0 < quantity (ms_incoming st))%Z;
  sp_level : ∃ l, book_side ms (ms_book st) !! key = Some l
                  ∧ queue l = i :: next;
  sp_maker : _orders (ms_book st) !! i = Some m
}.

(** The entry of [filled_maker_orders] a trade stands for, between the handle
    table [m0] the matching started from and the table [m'] it has reached:
    the maker as it was, with no quantity and no parent, when it is no longer
    in the table. *)
Definition filled_of (m0 m' : gmap Z Order) (t : Trade) : option Order :=
  if decide (is_Some (m' !! maker_order_id t)) then None
  else (λ m, set_parent_limit (set_quantity m 0%Z) None)
       <$> m0 !! maker_order_id t.

(** What the loops of [match_order] keep, between the book [b0] and the
    incoming order [o0] they start from and the state they have reached. *)
Record trace_inv (b0 : OrderBook) (o0 : Order) (st : MatchState) : Prop :=
  mk_trace_inv {
  ti_incoming :
    ms_incoming st
    = set_quantity o0 (quantity o0 - sum_trades (ms_trades st))%Z;
  ti_trades : Forall (trade_ok (_orders b0) o0) (ms_trades st);
  ti_quantity : ∀ j,
    resting_quantity (_orders (ms_book st)) j
    = (resting_quantity (_orders b0) j - traded j (ms_trades st))%Z;
  ti_store : store_le (_orders (ms_book st)) (_orders b0);
  ti_own_side : book_side (side o0) (ms_book st) = book_side (side o0) b0;
  ti_levels :
    dom (book_side (opposite (side o0)) (ms_book st))
    ⊆ dom (book_side (opposite (side o0)) b0);
  ti_priority :
    Forall (λ t, ∀ k, k ∈ dom (book_side (opposite (side o0)) (ms_book st)) →
                      (trade_key o0 t ≤ k)%Qc) (ms_trades st);
  ti_sorted : StronglySorted Qcle (trade_key o0 <$> ms_trades st);
  ti_price : Forall (λ t, limit_ok o0 (trade_price t)) (ms_trades st);
  ti_last :
    ∃ ts, Forall (λ t, _orders (ms_book st) !! maker_order_id t = None) ts
          ∧ (ms_trades st = ts
             ∨ ((quantity (ms_incoming st) ≤ 0)%Z
                ∧ ∃ t, ms_trades st = ts ++ [t]));
  ti_makers : NoDup (maker_order_id <$> ms_trades st);
  ti_idle : ms_trades st = [] → st = mkMatchState b0 o0 [] [];
  ti_nonneg : ms_trades st ≠ [] → (0 ≤ quantity (ms_incoming st))%Z;
  ti_filled :
    ms_filled st
    = omap (filled_of (_orders b0) (_orders (ms_book st))) (ms_trades st);
  ti_fifo : ∀ k l0, book_side (opposite (side o0)) b0 !! k = Some l0 →
    (maker_order_id <$> filter (λ t, trade_key o0 t = k) (ms_trades st))
    `prefix_of` queue l0
    ∧ ((0 < quantity (ms_incoming st))%Z →
       queue l0
       = (maker_order_id <$> filter (λ t, trade_key o0 t = k) (ms_trades st))
         ++ from_option queue []
              (book_side (opposite (side o0)) (ms_book st) !! k));
  ti_queue : ∀ k l0, book_side (opposite (side o0)) b0 !! k = Some l0 →
    ∃ pre,
      queue l0
      = pre ++ from_option queue []
                 (book_side (opposite (side o0)) (ms_book st) !! k)
      ∧ Forall (λ j, _orders (ms_book st) !! j = None) pre
}.

(** * Properties *)

(** ** Accessors *)

Section accessors.
Implicit Types (b : OrderBook) (s : OrderSide) (d : gmap Qc Limit)
  (m : gmap Z Order).

Lemma book_side_set_same s d b : book_side s (set_book_side s d b) = d.
Proof. by destruct s. Qed.

Lemma book_side_set_other s s' d b :
  s ≠ s' → book_side s (set_book_side s' d b) = book_side s b.
Proof. by destruct s, s'. Qed.

Lemma orders_set_book_side s d b : _orders (set_book_side s d b) = _orders b.
Proof. by destruct s. Qed.

Lemma book_side_set_orders s m b : book_side s (set_orders m b) = book_side s b.
Proof. by destruct s. Qed.

Lemma orders_set_orders m b : _orders (set_orders m b) = m.
Proof. done. Qed.

Lemma book_key_inj s : Inj (=) (=) (book_key s).
Proof.
  intros p1 p2. destruct s; simpl; [|done].
  intros H. by rewrite <-(Qcopp_involutive p1), H, Qcopp_involutive.
Qed.

Lemma opposite_ne s : opposite s ≠ s.
Proof. by destruct s. Qed.
End accessors.

(** ** Queues *)

Section queues.
Implicit Types (m : gmap Z Order) (q : list Z) (i j : Z) (o : Order).

Lemma queue_volume_app m q1 q2 :
  queue_volume m (q1 ++ q2) = (queue_volume m q1 + queue_volume m q2)%Z.
Proof. induction q1 as [|i q1 IH]; simpl; [done|]. rewrite IH. lia. Qed.

Lemma queue_volume_ext m m' q :
  (∀ i, i ∈ q → m' !! i = m !! i) → queue_volume m' q = queue_volume m q.
Proof.
  induction q as [|i q IH]; intros H; simpl; [done|].
  rewrite IH, H; [done|by left|]. intros j Hj. apply H. by right.
Qed.

Lemma queue_volume_insert_in m q i o o' :
  NoDup q → i ∈ q → m !! i = Some o →
  queue_volume (<[i:=o']> m) q
  = (queue_volume m q - quantity o + quantity o')%Z.
Proof.
  induction 1 as [|j q Hj Hq IH]; intros Hi Hm; [by inversion Hi|].
  simpl. destruct (decide (j = i)) as [->|Hne].
  - rewrite lookup_insert_eq, Hm. simpl.
    rewrite (queue_volume_ext m); [lia|].
    intros k Hk. rewrite lookup_insert_ne; [done|]. by intros ->.
  - rewrite lookup_insert_ne by done. rewrite IH; [lia| |done].
    apply elem_of_cons in Hi as [->|]; done.
Qed.

Lemma elem_of_unlink q i j : NoDup q → j ∈ unlink i q ↔ j ∈ q ∧ j ≠ i.
Proof.
  induction 1 as [|k q Hk Hq IH]; simpl.
  - split; [by inversion 1|by intros [? _]].
  - destruct (decide (k = i)) as [->|Hne].
    + rewrite elem_of_cons. split; [|naive_solver].
      intros Hj. split; [by right|]. by intros ->.
    + rewrite !elem_of_cons, IH. naive_solver.
Qed.

Lemma NoDup_unlink q i : NoDup q → NoDup (unlink i q).
Proof.
  induction 1 as [|k q Hk Hq IH]; simpl; [constructor|].
  destruct (decide (k = i)); [done|].
  constructor; [|done]. rewrite elem_of_unlink by done. naive_solver.
Qed.

Lemma length_unlink q i :
  i ∈ q → length q = S (length (unlink i q)).
Proof.
  induction q as [|k q IH]; [by inversion 1|]. simpl.
  destruct (decide (k = i)) as [->|Hne]; [done|].
  intros [->|Hi]%elem_of_cons; [done|]. simpl. by rewrite <-IH.
Qed.

Lemma unlink_nil_inv q i : i ∈ q → unlink i q = [] → q = [i].
Proof.
  intros Hi Hnil. apply length_unlink in Hi as Hlen. rewrite Hnil in Hlen.
  destruct q as [|k [|??]]; simplify_eq/=.
  by apply list_elem_of_singleton in Hi as ->.
Qed.

Lemma unlink_head q i : unlink i (i :: q) = q.
Proof. simpl. by rewrite decide_True. Qed.

Lemma queue_volume_unlink m q i o :
  NoDup q → i ∈ q → m !! i = Some o →
  queue_volume (delete i m) (unlink i q) = (queue_volume m q - quantity o)%Z.
Proof.
  induction 1 as [|j q Hj Hq IH]; intros Hi Hm; [by inversion Hi|].
  simpl. destruct (decide (j = i)) as [->|Hne].
  - rewrite Hm. simpl. rewrite (queue_volume_ext m); [lia|].
    intros k Hk. rewrite lookup_delete_ne; [done|]. by intros ->.
  - simpl. rewrite lookup_delete_ne by done. rewrite IH; [lia| |done].
    apply elem_of_cons in Hi as [->|]; done.
Qed.
End queues.

(** ** The first item of a side *)

Section peekitem.
Implicit Types (d : gmap Qc Limit) (kv : Qc * Limit).

Lemma foldr_first_item_elem (l : list (Qc * Limit)) kv :
  foldr first_item None l = Some kv → kv ∈ l.
Proof.
  revert kv. induction l as [|kv' l IH]; intros kv; simpl; [done|].
  unfold first_item at 1. destruct (foldr first_item None l) as [kv''|].
  - case_decide; intros [= <-]; [by left|]. right. by apply IH.
  - intros [= <-]. by left.
Qed.

Lemma foldr_first_item_is_Some (l : list (Qc * Limit)) :
  l ≠ [] → is_Some (foldr first_item None l).
Proof.
  destruct l as [|kv l]; [done|]. intros _. simpl. unfold first_item at 1.
  destruct (foldr first_item None l); [case_decide|]; eauto.
Qed.

Lemma peekitem0_lookup d k l : peekitem0 d = Some (k, l) → d !! k = Some l.
Proof.
  intros H%foldr_first_item_elem. by apply elem_of_map_to_list in H.
Qed.

Lemma peekitem0_is_Some d : d ≠ ∅ → is_Some (peekitem0 d).
Proof.
  intros H. apply foldr_first_item_is_Some.
  by intros ?%map_to_list_empty_iff.
Qed.

Lemma foldr_first_item_least (l : list (Qc * Limit)) kv :
  foldr first_item None l = Some kv → ∀ kv', kv' ∈ l → (kv.1 ≤ kv'.1)%Qc.
Proof.
  revert kv. induction l as [|kv0 l IH]; intros kv; simpl; [done|].
  unfold first_item at 1.
  destruct (foldr first_item None l) as [kv1|] eqn:Hl.
  - case_decide as Hle; intros [= <-] kv' [->|Hin]%elem_of_cons.
    + apply Qcle_refl.
    + eapply Qcle_trans; [done|]. by apply IH.
    + by apply Qclt_le_weak, Qcnot_le_lt.
    + by apply IH.
  - intros [= <-] kv' [->|Hin]%elem_of_cons; [apply Qcle_refl|].
    destruct l as [|kv1 l]; [by inversion Hin|].
    destruct (foldr_first_item_is_Some (kv1 :: l)) as [??]; [done|congruence].
Qed.

(** [peekitem(0)] is the item with the least key. *)
Lemma peekitem0_least d k l k' l' :
  peekitem0 d = Some (k, l) → d !! k' = Some l' → (k ≤ k')%Qc.
Proof.
  intros Hpeek Hl'.
  apply (foldr_first_item_least _ _ Hpeek (k', l')).
  by apply elem_of_map_to_list.
Qed.

Lemma peekitem0_empty : peekitem0 ∅ = None.
Proof. unfold peekitem0. by rewrite map_to_list_empty. Qed.
End peekitem.

(** ** Cancellation on a well-formed book *)

Section cancel.
Implicit Types (b : OrderBook) (s : OrderSide) (l : Limit) (o : Order)
  (i j : Z) (m : gmap Z Order).

Lemma level_wf_ext m m' s k l :
  (∀ i, i ∈ queue l → m' !! i = m !! i) →
  level_wf m s k l → level_wf m' s k l.
Proof.
  intros Hext [Hk Hnd Hne Ho Hv Hc]. split; try done.
  - intros i Hi. rewrite Hext by done. by apply Ho.
  - by rewrite (queue_volume_ext m).
Qed.

(** The level an order is queued in is the one its side and parent name. *)
Lemma level_of_order b s k l i o :
  book_wf b → book_side s b !! k = Some l → i ∈ queue l →
  _orders b !! i = Some o →
  s = side o ∧ parent_limit o = Some (limit_price l)
  ∧ k = book_key (side o) (limit_price l).
Proof.
  intros Hwf Hl Hi Ho.
  destruct (bw_levels b Hwf s k l Hl) as [Hk _ _ Hos _ _].
  destruct (Hos i Hi) as (o' & Ho' & Hs & Hp). simplify_eq. done.
Qed.

Lemma order_level b i o :
  book_wf b → _orders b !! i = Some o →
  ∃ l, parent_limit o = Some (limit_price l)
       ∧ book_side (side o) b !! book_key (side o) (limit_price l) = Some l
       ∧ i ∈ queue l.
Proof.
  intros Hwf Ho.
  destruct (bw_orders b Hwf i o Ho) as (_ & _ & lp & l & Hp & Hl & Hi).
  destruct (level_of_order b _ _ l i o Hwf Hl Hi Ho) as (_ & Hp' & _).
  exists l. simplify_eq. done.
Qed.

(** What [cancel_order] does to a resting order: the handle is popped, the
    order is unlinked from its level, and the level leaves its side when
    that order was the only one. *)
Lemma cancel_order_resting b i o :
  book_wf b → _orders b !! i = Some o →
  ∃ l, parent_limit o = Some (limit_price l)
    ∧ book_side (side o) b !! book_key (side o) (limit_price l) = Some l
    ∧ i ∈ queue l
    ∧ cancel_order b i =
      (Some (set_parent_limit o None),
       set_book_side (side o)
         (if decide (queue l = [i])
          then delete (book_key (side o) (limit_price l))
                      (book_side (side o) b)
          else <[book_key (side o) (limit_price l) :=
                   (Limit_remove_order l o).1]> (book_side (side o) b))
         (set_orders (delete i (_orders b)) b)).
Proof.
  intros Hwf Ho. destruct (order_level b i o Hwf Ho) as (l & Hp & Hl & Hi).
  exists l. split_and!; try done.
  destruct (bw_orders b Hwf i o Ho) as (Hid & _ & _).
  destruct (bw_levels b Hwf _ _ l Hl) as [_ Hnd _ _ _ Hc].
  unfold cancel_order. rewrite Ho, Hp. simpl.
  rewrite book_side_set_orders, Hl. simpl. rewrite Hid.
  destruct (decide (queue l = [i])) as [Hq|Hq].
  - rewrite decide_True; [done|]. rewrite Hc, Hq. simpl. lia.
  - rewrite decide_False; [done|]. rewrite Hc. intros Hz.
    apply Hq, unlink_nil_inv; [done|].
    apply length_unlink in Hi. apply nil_length_inv. lia.
Qed.

Lemma cancel_order_absent b i :
  _orders b !! i = None → cancel_order b i = (None, b).
Proof. intros H. unfold cancel_order. by rewrite H. Qed.
End cancel.

Section cancel_wf.
Implicit Types (b : OrderBook) (s : OrderSide) (l : Limit) (o : Order)
  (i j : Z) (m : gmap Z Order).

Lemma cancel_order_wf b i : book_wf b → book_wf (cancel_order b i).2.
Proof.
  intros Hwf. destruct (_orders b !! i) as [o|] eqn:Ho;
    [|by rewrite cancel_order_absent].
  destruct (cancel_order_resting b i o Hwf Ho) as (l & Hp & Hl & Hi & ->).
  simpl. set (s := side o) in *.
  set (key := book_key s (limit_price l)) in *.
  pose proof (bw_levels b Hwf _ _ l Hl) as Hlw.
  destruct (bw_orders b Hwf i o Ho) as (Hid & Hq & _).
  assert (Hother : ∀ s2 k2 l2, book_side s2 b !! k2 = Some l2 →
            (s2, k2) ≠ (s, key) → i ∉ queue l2).
  { intros s2 k2 l2 Hl2 Hne Hi2.
    destruct (level_of_order b s2 k2 l2 i o Hwf Hl2 Hi2 Ho) as (-> & Hp2 & ->).
    apply Hne. rewrite Hp in Hp2. injection Hp2 as Hp2.
    unfold key, s. by rewrite Hp2. }
  assert (Hkeep : ∀ s2 k2 l2, book_side s2 b !! k2 = Some l2 →
            (s2, k2) ≠ (s, key) → level_wf (delete i (_orders b)) s2 k2 l2).
  { intros s2 k2 l2 Hl2 Hne.
    eapply level_wf_ext; [|by eapply bw_levels].
    intros j Hj. apply lookup_delete_ne. intros ->. by eapply Hother. }
  assert (Hl' : queue l ≠ [i] →
            level_wf (delete i (_orders b)) s key (Limit_remove_order l o).1).
  { intros Hne. destruct Hlw as [Hk Hnd Hnn Hos Hv Hc]. split; simpl.
    - done.
    - rewrite Hid. by apply NoDup_unlink.
    - rewrite Hid. intros Hnil. by apply Hne, unlink_nil_inv.
    - rewrite Hid. intros j [Hj Hji]%elem_of_unlink; [|done].
      destruct (Hos j Hj) as (o2 & ? & ? & ?). exists o2.
      by rewrite lookup_delete_ne.
    - rewrite Hid, Hv. by rewrite (queue_volume_unlink _ _ _ o).
    - rewrite Hid, Hc. apply length_unlink in Hi. lia. }
  split.
  - intros s2 k2 l2. rewrite orders_set_book_side, orders_set_orders.
    destruct (decide (s2 = s)) as [->|Hs].
    + rewrite book_side_set_same. case_decide as Hq1.
      * intros [Hk2 Hl2]%lookup_delete_Some. apply Hkeep; [done|congruence].
      * intros [[<- <-]|[Hk2 Hl2]]%lookup_insert_Some; [by apply Hl'|].
        apply Hkeep; [done|congruence].
    + rewrite book_side_set_other, book_side_set_orders by done.
      intros Hl2. apply Hkeep; [done|congruence].
  - intros j o2. rewrite orders_set_book_side, orders_set_orders.
    intros [Hji Ho2]%lookup_delete_Some.
    destruct (bw_orders b Hwf j o2 Ho2) as (Hid2 & Hq2 & _).
    split_and!; [done..|].
    destruct (order_level b j o2 Hwf Ho2) as (l2 & Hp2 & Hl2 & Hj2).
    exists (limit_price l2).
    destruct (decide (side o2 = s)) as [Hs|Hs].
    + rewrite Hs in *. rewrite book_side_set_same.
      destruct (decide (book_key s (limit_price l2) = key)) as [Hk|Hk].
      * rewrite Hk in *. assert (l2 = l) as -> by congruence.
        rewrite decide_False.
        2:{ intros Hq1. rewrite Hq1 in Hj2.
            by apply list_elem_of_singleton in Hj2. }
        exists (Limit_remove_order l o).1. rewrite lookup_insert_eq.
        split_and!; [done..|]. simpl. rewrite Hid.
        apply elem_of_unlink; [by destruct Hlw|done].
      * exists l2. split_and!; [done| |done].
        case_decide; [by rewrite lookup_delete_ne|by rewrite lookup_insert_ne].
    + exists l2. split_and!; [done| |done].
      by rewrite book_side_set_other, book_side_set_orders.
Qed.

Lemma cancel_order_bounded n b i :
  ids_bounded n b → ids_bounded n (cancel_order b i).2.
Proof.
  intros Hb j. unfold cancel_order.
  destruct (_orders b !! i) as [o|] eqn:Ho; [|by apply Hb].
  assert (Hd : is_Some (delete i (_orders b) !! j) → (j ≤ n)%Z).
  { intros [o' [_ Ho']%lookup_delete_Some]. apply Hb. eauto. }
  destruct (parent_limit o); [|done]. simpl.
  destruct (book_side (side o) _ !! _); [|done]. simpl.
  by rewrite orders_set_book_side.
Qed.
End cancel_wf.

(** ** Fills and insertions on a well-formed book *)

Section fill.
Implicit Types (b : OrderBook) (s : OrderSide) (l : Limit) (o : Order)
  (i j : Z) (m : gmap Z Order).

(** A partial fill keeps the book well formed: the level loses in volume
    what the maker loses in quantity. *)
Lemma fill_maker_partial_wf b i o q :
  book_wf b → _orders b !! i = Some o → (0 < q < quantity o)%Z →
  ∀ l, book_side (side o) b !! book_key (side o) (limit_price l) = Some l →
       i ∈ queue l →
  book_wf (fill_maker b (side o) (book_key (side o) (limit_price l)) i o q).
Proof.
  intros Hwf Ho Hq l Hl Hi. unfold fill_maker.
  set (s := side o) in *. set (key := book_key s (limit_price l)) in *.
  set (o' := set_quantity o (quantity o - q)).
  rewrite orders_set_book_side.
  destruct (bw_orders b Hwf i o Ho) as (Hid & _ & _).
  destruct (level_of_order b s key l i o Hwf Hl Hi Ho) as (_ & Hp & _).
  assert (Hother : ∀ s2 k2 l2, book_side s2 b !! k2 = Some l2 →
            (s2, k2) ≠ (s, key) → level_wf (<[i:=o']> (_orders b)) s2 k2 l2).
  { intros s2 k2 l2 Hl2 Hne.
    eapply level_wf_ext; [|by eapply bw_levels].
    intros j Hj. apply lookup_insert_ne. intros ->.
    destruct (level_of_order b s2 k2 l2 _ o Hwf Hl2 Hj Ho) as (-> & Hp2 & ->).
    apply Hne. rewrite Hp in Hp2. injection Hp2 as Hp2.
    unfold key, s. by rewrite Hp2. }
  split.
  - intros s2 k2 l2. rewrite orders_set_orders, book_side_set_orders.
    destruct (decide (s2 = s)) as [->|Hs].
    + rewrite book_side_set_same.
      destruct (decide (k2 = key)) as [->|Hk].
      * rewrite lookup_alter_eq, Hl. intros [= <-].
        destruct (bw_levels b Hwf _ _ l Hl) as [Hk Hnd Hnn Hos Hv Hc].
        split; simpl; try done.
        -- intros j Hj. destruct (decide (j = i)) as [->|Hji].
           ++ exists o'. by rewrite lookup_insert_eq.
           ++ rewrite lookup_insert_ne by done. by apply Hos.
        -- rewrite (queue_volume_insert_in _ _ _ o) by done. simpl. lia.
      * rewrite lookup_alter_ne by done. intros Hl2.
        apply Hother; [done|congruence].
    + rewrite book_side_set_other by done. intros Hl2.
      apply Hother; [done|congruence].
  - intros j o2. rewrite orders_set_orders.
    intros [[<- <-]|[Hji Ho2]]%lookup_insert_Some.
    + split_and!; [done|simpl; lia|]. exists (limit_price l), (sub_volume q l).
      split_and!; [done| |done]. simpl. fold s. fold key.
      by rewrite book_side_set_orders, book_side_set_same, lookup_alter_eq, Hl.
    + destruct (bw_orders b Hwf j o2 Ho2) as (Hid2 & Hq2 & _).
      split_and!; [done..|].
      destruct (order_level b j o2 Hwf Ho2) as (l2 & Hp2 & Hl2 & Hj2).
      exists (limit_price l2). rewrite book_side_set_orders.
      destruct (decide (side o2 = s)) as [Hs|Hs].
      * rewrite Hs in *. rewrite book_side_set_same.
        destruct (decide (book_key s (limit_price l2) = key)) as [Hk|Hk].
        -- rewrite Hk in *. assert (l2 = l) as -> by congruence.
           exists (sub_volume q l). by rewrite lookup_alter_eq, Hl.
        -- exists l2. by rewrite lookup_alter_ne.
      * exists l2. by rewrite book_side_set_other.
Qed.

(** A fill that exhausts the maker, followed by the cancellation of the
    maker, leaves the book that cancelling the maker outright leaves:
    the fill has taken from the level's volume what [Limit.remove_order]
    no longer finds in the order's quantity. *)
Lemma fill_maker_full_cancel b i o :
  book_wf b → _orders b !! i = Some o →
  ∀ l, book_side (side o) b !! book_key (side o) (limit_price l) = Some l →
       i ∈ queue l →
  cancel_order
    (fill_maker b (side o) (book_key (side o) (limit_price l)) i o
                (quantity o))
    (order_id o)
  = (Some (set_parent_limit (set_quantity o (quantity o - quantity o)) None),
     (cancel_order b i).2).
Proof.
  intros Hwf Ho l Hl Hi.
  destruct (bw_orders b Hwf i o Ho) as (Hid & _ & _).
  destruct (bw_levels b Hwf _ _ l Hl) as [_ Hnd _ _ _ Hc].
  destruct (cancel_order_resting b i o Hwf Ho) as (l0 & Hp & Hl0 & _ & ->).
  assert (limit_price l0 = limit_price l) as Hlp.
  { destruct (level_of_order b _ _ l i o Hwf Hl Hi Ho) as (_ & Hp' & _).
    congruence. }
  rewrite Hlp in *. assert (l0 = l) as -> by congruence. clear Hl0 Hlp.
  unfold cancel_order, fill_maker. rewrite Hid.
  rewrite orders_set_orders, orders_set_book_side, lookup_insert_eq.
  cbn [parent_limit set_quantity side]. rewrite Hp.
  rewrite book_side_set_orders, book_side_set_orders, book_side_set_same.
  rewrite lookup_alter_eq, Hl. cbn [fmap option_fmap option_map].
  unfold Limit_remove_order.
  cbn [order_count sub_volume total_volume queue limit_price quantity
       set_quantity order_id fst snd].
  rewrite Hid, delete_insert_eq.
  destruct (decide (queue l = [i])) as [Hq|Hq].
  - rewrite decide_True by (rewrite Hc, Hq; simpl; lia).
    rewrite delete_alter_eq. by destruct (side o).
  - rewrite decide_False.
    2:{ rewrite Hc. intros Hz. apply Hq, unlink_nil_inv; [done|].
        apply length_unlink in Hi. apply nil_length_inv. lia. }
    rewrite insert_alter_eq.
    replace (total_volume l - quantity o - (quantity o - quantity o))%Z
      with (total_volume l - quantity o)%Z by lia.
    by destruct (side o).
Qed.

Lemma fill_maker_bounded n b ms key i o q :
  ids_bounded n b → is_Some (_orders b !! i) →
  ids_bounded n (fill_maker b ms key i o q).
Proof.
  intros Hb Hi j. unfold fill_maker.
  rewrite orders_set_orders, orders_set_book_side.
  destruct (decide (j = i)) as [->|Hne]; [intros _; by apply Hb|].
  rewrite lookup_insert_ne by done. apply Hb.
Qed.

Lemma fill_maker_dom b ms key i o q s :
  dom (book_side s (fill_maker b ms key i o q)) = dom (book_side s b).
Proof.
  unfold fill_maker. rewrite book_side_set_orders.
  destruct (decide (s = ms)) as [->|Hs].
  - rewrite book_side_set_same. apply dom_alter_L.
  - by rewrite book_side_set_other.
Qed.

Lemma cancel_order_dom b i s :
  dom (book_side s (cancel_order b i).2) ⊆ dom (book_side s b).
Proof.
  unfold cancel_order. destruct (_orders b !! i) as [o|]; [|done].
  destruct (parent_limit o) as [lp|]; simpl;
    [|by rewrite book_side_set_orders].
  rewrite book_side_set_orders.
  destruct (book_side (side o) b !! book_key (side o) lp) as [l|] eqn:Hl;
    simpl; [|by rewrite book_side_set_orders].
  destruct (decide (s = side o)) as [->|Hs].
  - rewrite book_side_set_same. case_decide.
    + rewrite dom_delete_L. set_solver.
    + rewrite dom_insert_L. apply elem_of_dom_2 in Hl. set_solver.
  - by rewrite book_side_set_other, book_side_set_orders.
Qed.
End fill.

Section add.
Implicit Types (b : OrderBook) (s : OrderSide) (l : Limit) (o : Order)
  (i j : Z) (m : gmap Z Order).

Lemma add_order_wf b o b' :
  book_wf b → _orders b !! order_id o = None → (0 < quantity o)%Z →
  add_order b o = Ok b' → book_wf b'.
Proof.
  intros Hwf Hfresh Hq. unfold add_order.
  rewrite decide_False by (rewrite Hfresh; by intros [??]).
  destruct (price o) as [p|]; [|done]. simpl. intros [= <-].
  set (s := side o). set (key := book_key s p). set (d := book_side s b).
  set (l0 := default (Limit_init p) (d !! key)).
  set (o' := set_parent_limit o (Some (limit_price l0))).
  set (i := order_id o) in *.
  assert (Hin : ∀ s2 k2 l2, book_side s2 b !! k2 = Some l2 → i ∉ queue l2).
  { intros s2 k2 l2 Hl2 Hi.
    destruct (bw_levels b Hwf _ _ _ Hl2) as [_ _ _ Hos _ _].
    destruct (Hos i Hi) as (? & ? & _). congruence. }
  assert (Hkeep : ∀ s2 k2 l2, book_side s2 b !! k2 = Some l2 →
            level_wf (<[i:=o']> (_orders b)) s2 k2 l2).
  { intros s2 k2 l2 Hl2. eapply level_wf_ext; [|by eapply bw_levels].
    intros j Hj. apply lookup_insert_ne. intros ->. by eapply Hin. }
  assert (Hl0 : key = book_key s (limit_price l0) ∧ NoDup (queue l0)
            ∧ (i ∉ queue l0)
            ∧ (∀ j, j ∈ queue l0 → ∃ o2, _orders b !! j = Some o2
                 ∧ side o2 = s ∧ parent_limit o2 = Some (limit_price l0))
            ∧ total_volume l0 = queue_volume (_orders b) (queue l0)
            ∧ order_count l0 = Z.of_nat (length (queue l0))).
  { unfold l0. destruct (d !! key) as [l|] eqn:Hl; simpl.
    - destruct (bw_levels b Hwf _ _ _ Hl) as [? ? ? ? ? ?].
      split_and!; try done. by eapply Hin.
    - split_and!; try done; [constructor|by inversion 1..]. }
  destruct Hl0 as (Hk & Hnd & Hni & Hos & Hv & Hc).
  split.
  - intros s2 k2 l2. rewrite orders_set_orders, book_side_set_orders.
    destruct (decide (s2 = s)) as [->|Hs].
    + rewrite book_side_set_same.
      intros [[<- <-]|[Hk2 Hl2]]%lookup_insert_Some; [|by apply Hkeep].
      split; simpl.
      * done.
      * apply NoDup_app. split_and!; [done| |apply NoDup_singleton].
        intros j Hj ->%list_elem_of_singleton. done.
      * by destruct (queue l0).
      * intros j [Hj| ->%list_elem_of_singleton]%elem_of_app.
        -- rewrite lookup_insert_ne by (by intros <-). by apply Hos.
        -- exists o'. by rewrite lookup_insert_eq.
      * rewrite queue_volume_app. simpl. rewrite lookup_insert_eq. simpl.
        rewrite (queue_volume_ext (_orders b)); [lia|].
        intros j Hj. apply lookup_insert_ne. by intros <-.
      * rewrite length_app. simpl. lia.
    + rewrite book_side_set_other by done. by apply Hkeep.
  - intros j o2. rewrite orders_set_orders.
    intros [[<- <-]|[Hji Ho2]]%lookup_insert_Some.
    + split_and!; [done..|]. exists (limit_price l0). eexists.
      split_and!; [done| |].
      * rewrite book_side_set_orders. simpl. fold s. rewrite <-Hk.
        by rewrite book_side_set_same, lookup_insert_eq.
      * simpl. apply elem_of_app. right. by left.
    + destruct (bw_orders b Hwf j o2 Ho2) as (Hid2 & Hq2 & _).
      split_and!; [done..|].
      destruct (order_level b j o2 Hwf Ho2) as (l2 & Hp2 & Hl2 & Hj2).
      exists (limit_price l2). rewrite book_side_set_orders.
      destruct (decide (side o2 = s)) as [Hs|Hs].
      * rewrite Hs in *. rewrite book_side_set_same.
        destruct (decide (book_key s (limit_price l2) = key)) as [Hk2|Hk2].
        -- rewrite Hk2 in *. fold d in Hl2. unfold l0 in *. rewrite Hl2 in *.
           simpl in *. eexists. rewrite lookup_insert_eq.
           split_and!; [done..|]. simpl. apply elem_of_app. by left.
        -- exists l2. by rewrite lookup_insert_ne.
      * exists l2. by rewrite book_side_set_other.
Qed.

Lemma add_order_bounded n n' b o b' :
  ids_bounded n b → (n ≤ n')%Z → (order_id o ≤ n')%Z →
  add_order b o = Ok b' → ids_bounded n' b'.
Proof.
  intros Hb Hn Hi. unfold add_order. case_decide; [done|].
  destruct (price o); [|done]. simpl. intros [= <-] j.
  rewrite orders_set_orders.
  destruct (decide (j = order_id o)) as [->|Hne]; [done|].
  rewrite lookup_insert_ne by done. intros Hj%Hb. lia.
Qed.
End add.

(** ** The matching loops on a well-formed book *)

Section matching.
Implicit Types (b : OrderBook) (s ms : OrderSide) (l : Limit) (o : Order)
  (i j n : Z) (st : MatchState) (nodes : list Z).

#[local] Arguments cancel_order : simpl never.
#[local] Arguments fill_maker : simpl never.

Lemma set_quantity_same o : set_quantity o (quantity o) = o.
Proof. by destruct o. Qed.

Lemma cancel_head_level_is b i next l o :
  book_wf b → _orders b !! i = Some o →
  book_side (side o) b !! book_key (side o) (limit_price l) = Some l →
  queue l = i :: next →
  level_is (cancel_order b i).2 (side o) (book_key (side o) (limit_price l))
           next.
Proof.
  intros Hwf Ho Hl Hq.
  destruct (bw_orders b Hwf i o Ho) as (Hid & _ & _).
  destruct (cancel_order_resting b i o Hwf Ho) as (l0 & Hp & Hl0 & Hi & ->).
  assert (limit_price l0 = limit_price l) as Hlp.
  { assert (i ∈ queue l) as Hi' by (rewrite Hq; by left).
    destruct (level_of_order b _ _ l i o Hwf Hl Hi' Ho) as (_ & Hp' & _).
    congruence. }
  rewrite Hlp in *. assert (l0 = l) as -> by congruence.
  simpl. unfold level_is. rewrite book_side_set_same.
  destruct next as [|j next].
  - by rewrite decide_True, lookup_delete_eq.
  - rewrite decide_False by (by rewrite Hq). rewrite lookup_insert_eq.
    eexists. split; [done|]. simpl. by rewrite Hid, Hq, unlink_head.
Qed.

(** The walk over one level: the book stays well formed, no level appears,
    only the quantity of the incoming order changes, and at the end either
    the incoming order is exhausted or the level is gone from its side. *)
Lemma walk_level_spec n nodes ms key lp : ∀ st,
  book_wf (ms_book st) → ids_bounded n (ms_book st) →
  (quantity (ms_incoming st) ≤ 0)%Z ∨ level_is (ms_book st) ms key nodes →
  let st' := walk_level nodes ms key lp st in
  book_wf (ms_book st') ∧ ids_bounded n (ms_book st')
  ∧ (∀ s, dom (book_side s (ms_book st')) ⊆ dom (book_side s (ms_book st)))
  ∧ (∃ q', ms_incoming st' = set_quantity (ms_incoming st) q')
  ∧ ((quantity (ms_incoming st') ≤ 0)%Z
     ∨ book_side ms (ms_book st') !! key = None).
Proof.
  induction nodes as [|i next IH]; intros st Hwf Hb Hpre.
  - simpl. split_and!; [done..| |].
    + exists (quantity (ms_incoming st)). by rewrite set_quantity_same.
    + destruct Hpre; [by left|by right].
  - simpl. case_bool_decide as Hq.
    2:{ split_and!; [done..| |left; lia].
        exists (quantity (ms_incoming st)). by rewrite set_quantity_same. }
    destruct Hpre as [Hpre|(l & Hl & Hql)]; [lia|].
    pose proof (bw_levels _ Hwf _ _ _ Hl) as [Hk Hnd Hnn Hos Hv Hc].
    assert (Hi : i ∈ queue l) by (rewrite Hql; by left).
    destruct (Hos i Hi) as (o & Ho & Hs & Hp).
    rewrite Ho. subst ms key.
    destruct (bw_orders _ Hwf i o Ho) as (Hid & Hqo & _).
    set (qi := quantity (ms_incoming st)) in *.
    destruct (decide (quantity o - qi `min` quantity o = 0)%Z) as [Hz|Hz].
    + assert (qi `min` quantity o = quantity o)%Z as -> by lia.
      rewrite (fill_maker_full_cancel _ _ _ Hwf Ho l Hl Hi).
      match goal with |- context [walk_level next _ _ _ ?st3] =>
        destruct (IH st3) as (H1 & H2 & H3 & (q' & H4) & H5) end.
      * by apply cancel_order_wf.
      * by apply cancel_order_bounded.
      * right. by apply cancel_head_level_is.
      * split_and!; [done..| | |done].
        -- intros s. etrans; [apply H3|]. apply cancel_order_dom.
        -- exists q'. by rewrite H4.
    + assert (qi `min` quantity o = qi)%Z as -> by lia.
      match goal with |- context [walk_level next _ _ _ ?st2] =>
        destruct (IH st2) as (H1 & H2 & H3 & (q' & H4) & H5) end.
      * apply fill_maker_partial_wf; [done..|lia|done|done].
      * apply fill_maker_bounded; [done|eauto].
      * left. simpl. lia.
      * split_and!; [done..| | |done].
        -- intros s. etrans; [apply H3|]. simpl. by rewrite fill_maker_dom.
        -- exists q'. by rewrite H4.
Qed.

(** The outer loop returns or raises, never uses up a bound that exceeds
    the number of levels of the opposite side, and leaves a well-formed
    book. *)
Lemma match_loop_spec n fuel : ∀ cond st,
  book_wf (ms_book st) → ids_bounded n (ms_book st) →
  (size (book_to_match (ms_book st) (ms_incoming st)) < fuel)%nat
  ∨ ((0 < fuel)%nat ∧ (quantity (ms_incoming st) ≤ 0)%Z) →
  ∃ st', (match_loop fuel cond st = Returned () st'
          ∨ ∃ e, match_loop fuel cond st = Raised e st')
    ∧ book_wf (ms_book st') ∧ ids_bounded n (ms_book st')
    ∧ ∃ q', ms_incoming st' = set_quantity (ms_incoming st) q'.
Proof.
  induction fuel as [|fuel IH]; intros cond st Hwf Hb Hfuel; [lia|].
  assert (Hsame : ∃ q', ms_incoming st = set_quantity (ms_incoming st) q').
  { exists (quantity (ms_incoming st)). by rewrite set_quantity_same. }
  simpl. case_bool_decide as Hq; simpl; [|by eauto 10].
  destruct cond; [|by eauto 10].
  destruct (peekitem0 _) as [[key l]|] eqn:Hpeek; [|by eauto 10].
  apply peekitem0_lookup in Hpeek.
  set (ms := opposite (side (ms_incoming st))) in *.
  destruct (walk_level_spec n (queue l) ms key (limit_price l) st Hwf Hb)
    as (H1 & H2 & H3 & (q' & H4) & H5).
  { right. unfold level_is.
    destruct (bw_levels _ Hwf _ _ _ Hpeek) as [_ _ Hnn _ _ _].
    destruct (queue l) eqn:Hql; [done|]. rewrite <-Hql. eauto. }
  set (st' := walk_level (queue l) ms key (limit_price l) st) in *.
  destruct (price_condition _ _) as [cond'|e]; [|by eauto 10].
  destruct (IH cond' st' H1 H2) as (st'' & Hres & H1' & H2' & q'' & H4').
  - unfold book_to_match. rewrite H4. simpl. fold ms.
    destruct Hfuel as [Hfuel|[_ ?]]; [|lia].
    unfold book_to_match in Hfuel. fold ms in Hfuel.
    rewrite <-!size_dom in *.
    assert (key ∈ dom (book_side ms (ms_book st))) by by eapply elem_of_dom_2.
    destruct H5 as [H5|H5].
    + right. split; [|by rewrite H4 in H5].
      destruct (size (dom (book_side ms (ms_book st)))) eqn:Hsz; [|lia].
      apply size_empty_iff in Hsz. set_solver.
    + left. apply not_elem_of_dom in H5.
      assert (dom (book_side ms (ms_book st'))
              ⊂ dom (book_side ms (ms_book st))) as Hsub%subset_size.
      { split; [apply H3|]. intros Hsub. apply H5, Hsub. done. }
      lia.
  - exists st''. split_and!; [done..|]. exists q''. by rewrite H4', H4.
Qed.

(** [match_order] on a well-formed book returns or raises, and the book it
    leaves is well formed. *)
Lemma match_order_spec n b o :
  book_wf b → ids_bounded n b → (n < order_id o)%Z →
  ∃ b', ((∃ r, match_order b o = Returned r b')
         ∨ ∃ e, match_order b o = Raised e b')
    ∧ book_wf b' ∧ ids_bounded (order_id o) b'.
Proof.
  intros Hwf Hb Hn.
  assert (Hb' : ids_bounded (order_id o) b).
  { intros j Hj%Hb. lia. }
  unfold match_order.
  destruct (price_condition b o) as [cond|e]; [|by eauto 10].
  destruct (match_loop_spec n (S (size (book_to_match b o))) cond
              (mkMatchState b o [] []) Hwf Hb)
    as (st' & Hres & H1 & H2 & q' & H4); [left; simpl; lia|].
  assert (Hb'' : ids_bounded (order_id o) (ms_book st')).
  { intros j Hj%H2. lia. }
  simpl in H4.
  destruct Hres as [->|[e ->]]; [|by eauto 10].
  case_bool_decide as Hq; simpl; [|by eauto 10].
  case_bool_decide as Ht; simpl; [|by eauto 10].
  destruct (add_order _ _) as [b'|e] eqn:Hadd; [|by eauto 10].
  exists b'. split_and!; [by eauto| |].
  - eapply add_order_wf; [done| |done|done].
    rewrite H4. simpl. apply eq_None_not_Some. intros Hj%H2. lia.
  - eapply (add_order_bounded (order_id o) (order_id o));
      [exact Hb''|lia| |exact Hadd].
    rewrite H4. simpl. lia.
Qed.

(** *** Orders that are not LIMIT orders *)

Lemma walk_level_incoming nodes ms key lp : ∀ st,
  ∃ q', ms_incoming (walk_level nodes ms key lp st)
        = set_quantity (ms_incoming st) q'.
Proof.
  induction nodes as [|i next IH]; intros st; simpl.
  - exists (quantity (ms_incoming st)). by rewrite set_quantity_same.
  - assert (Hsame : ∃ q', ms_incoming st = set_quantity (ms_incoming st) q').
    { exists (quantity (ms_incoming st)). by rewrite set_quantity_same. }
    case_bool_decide; [|done].
    destruct (_orders (ms_book st) !! i) as [o|]; [|done].
    case_decide.
    + destruct (cancel_order _ _) as [c b3].
      match goal with |- context [walk_level next _ _ _ ?st3] =>
        destruct (IH st3) as [q' ->] end. by eexists.
    + match goal with |- context [walk_level next _ _ _ ?st2] =>
        destruct (IH st2) as [q' ->] end. by eexists.
Qed.

(** The walk reads the id, the quantity and the timestamp of the incoming
    order, never its type. *)
Lemma walk_level_retype ot nodes ms key lp : ∀ st,
  walk_level nodes ms key lp (retype ot st)
  = retype ot (walk_level nodes ms key lp st).
Proof.
  induction nodes as [|i next IH]; intros st; simpl; [done|].
  case_bool_decide; [|done].
  destruct (_orders (ms_book st) !! i) as [o|]; [|done].
  case_decide.
  - destruct (cancel_order _ _) as [c b3].
    match goal with |- _ = retype ot (walk_level _ _ _ _ ?st') =>
      exact (IH st') end.
  - match goal with |- _ = retype ot (walk_level _ _ _ _ ?st') =>
      exact (IH st') end.
Qed.

Lemma price_condition_non_limit b o :
  order_type o ≠ LIMIT →
  price_condition b o = Ok (bool_decide (book_to_match b o ≠ ∅)).
Proof. intros H. unfold price_condition. by rewrite decide_False. Qed.

Lemma match_loop_retype ot fuel : ∀ cond st,
  order_type (ms_incoming st) ≠ LIMIT → ot ≠ LIMIT →
  match_loop fuel cond (retype ot st)
  = outcome_map (retype ot) (match_loop fuel cond st).
Proof.
  induction fuel as [|fuel IH]; intros cond st Ht Hot; simpl; [done|].
  destruct (bool_decide _ && cond); [|done].
  change (book_to_match (ms_book st) (set_order_type (ms_incoming st) ot))
    with (book_to_match (ms_book st) (ms_incoming st)).
  destruct (peekitem0 _) as [[key l]|]; [|done].
  change (mkMatchState (ms_book st) (set_order_type (ms_incoming st) ot)
            (ms_trades st) (ms_filled st)) with (retype ot st).
  rewrite walk_level_retype.
  set (st' := walk_level _ _ _ _ st).
  assert (Ht' : order_type (ms_incoming st') ≠ LIMIT).
  { destruct (walk_level_incoming (queue l)
                (opposite (side (ms_incoming st))) key (limit_price l) st)
      as [q' Hq']. unfold st'. by rewrite Hq'. }
  rewrite !price_condition_non_limit by done.
  by apply IH.
Qed.

Lemma match_loop_incoming fuel : ∀ cond st st',
  (match_loop fuel cond st = Returned () st'
   ∨ ∃ e, match_loop fuel cond st = Raised e st') →
  ∃ q', ms_incoming st' = set_quantity (ms_incoming st) q'.
Proof.
  induction fuel as [|fuel IH]; intros cond st st' Hres; simpl in Hres.
  { by destruct Hres as [?|[??]]. }
  assert (Hsame : ∃ q', ms_incoming st = set_quantity (ms_incoming st) q').
  { exists (quantity (ms_incoming st)). by rewrite set_quantity_same. }
  destruct (bool_decide _ && cond);
    [|destruct Hres as [?|[??]]; by simplify_eq].
  destruct (peekitem0 _) as [[key l]|];
    [|destruct Hres as [?|[??]]; by simplify_eq].
  destruct (walk_level_incoming (queue l)
              (opposite (side (ms_incoming st))) key (limit_price l) st)
    as [q1 Hq1].
  destruct (price_condition _ _) as [cond'|e].
  - destruct (IH _ _ _ Hres) as [q' ->]. rewrite Hq1. by eexists.
  - destruct Hres as [?|[??]]; simplify_eq. by eexists.
Qed.

(** [match_order] makes no difference between the order types other than
    LIMIT: a STOP_LOSS, IOC or FOK order is matched as the MARKET order with
    the same fields is. *)
Lemma match_order_non_limit b o ot :
  order_type o ≠ LIMIT → ot ≠ LIMIT →
  match_order b (set_order_type o ot) = match_order b o.
Proof.
  intros Ht Hot. unfold match_order.
  rewrite !price_condition_non_limit by done.
  change (book_to_match b (set_order_type o ot)) with (book_to_match b o).
  change (mkMatchState b (set_order_type o ot) [] [])
    with (retype ot (mkMatchState b o [] [])).
  rewrite match_loop_retype by done.
  destruct (match_loop _ _ _) as [[] st|e st|] eqn:Hloop; simpl; [|done..].
  destruct (match_loop_incoming _ _ _ st (or_introl Hloop)) as [q' Hq'].
  rewrite (bool_decide_eq_false_2 (ot = LIMIT)) by done.
  rewrite (bool_decide_eq_false_2 (order_type (ms_incoming st) = LIMIT))
    by by rewrite Hq'.
  by rewrite !andb_false_r.
Qed.

(** An order that is not a LIMIT order adds no handle to the book: whatever
    is left of it after the walk is dropped. *)
Lemma match_order_non_limit_bounded n b o r b' :
  book_wf b → ids_bounded n b → order_type o ≠ LIMIT →
  match_order b o = Returned r b' → ids_bounded n b'.
Proof.
  intros Hwf Hb Ht. unfold match_order.
  destruct (price_condition b o) as [cond|e]; [|done].
  destruct (match_loop_spec n (S (size (book_to_match b o))) cond
              (mkMatchState b o [] []) Hwf Hb)
    as (st' & Hres & _ & H2 & q' & H4); [left; simpl; lia|].
  destruct Hres as [->|[e ->]]; [|done].
  rewrite (bool_decide_eq_false_2 (order_type (ms_incoming st') = LIMIT))
    by by rewrite H4.
  rewrite andb_false_r. by intros [= _ <-].
Qed.

End matching.

(** ** The facade on a well-formed exchange *)

Section facade.
Implicit Types (ex : Exchange) (ce : SEBIComplianceEngine).

(** [post_trade_check] never changes the compliance engine. *)
Lemma post_trade_check_same ce p t ce' :
  post_trade_check ce p t = Ok ce' → ce' = ce.
Proof.
  unfold post_trade_check.
  destruct (check_index_circuit_breaker _ _ _) as [hi|]; [|done].
  destruct (triggered hi); congruence.
Qed.

Lemma Exchange_init_wf reference_price stock_category :
  exchange_wf (Exchange_init reference_price stock_category).
Proof.
  split; [split|].
  - intros [] k l; simpl; by rewrite lookup_empty.
  - intros i o. simpl. by rewrite lookup_empty.
  - intros i [o Ho]. simpl in Ho. by rewrite lookup_empty in Ho.
Qed.

(** A submission returns or raises; either way the exchange it leaves is
    well formed and has the compliance engine it had. *)
Lemma submit_order_spec ex t ts a s q ot p tp :
  exchange_wf ex →
  ∃ ex', ((∃ r, submit_order ex t ts a s q ot p tp = Returned r ex')
          ∨ ∃ e, submit_order ex t ts a s q ot p tp = Raised e ex')
    ∧ exchange_wf ex'
    ∧ compliance_engine ex' = compliance_engine ex.
Proof.
  intros [Hwf Hb]. unfold submit_order.
  set (order := Order_init _ _ _ _ _ _ _ _).
  destruct (validate_order _ _ _) as [[] reason]; simpl.
  2:{ eexists. split_and!; [by eauto| |done].
      split; [done|]. intros j Hj%Hb. simpl. lia. }
  destruct (match_order_spec (_order_id_counter ex) (order_book ex) order
              Hwf Hb) as (b' & Hres & Hwf' & Hb'); [simpl; lia|].
  destruct Hres as [[[trades filled] ->]|[e ->]].
  2:{ eexists. split_and!; [by eauto| |done]. by split. }
  destruct (last trades) as [tr|].
  2:{ eexists. split_and!; [by eauto| |done]. by split. }
  destruct (post_trade_check _ _ _) as [ce'|e] eqn:Hpt.
  - apply post_trade_check_same in Hpt as ->.
    eexists. split_and!; [by eauto| |done]. by split.
  - eexists. split_and!; [by eauto| |done]. by split.
Qed.

Lemma Exchange_cancel_order_spec ex id :
  exchange_wf ex →
  exchange_wf (Exchange_cancel_order ex id).2
  ∧ compliance_engine (Exchange_cancel_order ex id).2 = compliance_engine ex.
Proof.
  intros [Hwf Hb]. unfold Exchange_cancel_order.
  pose proof (cancel_order_wf _ id Hwf) as Hwf'.
  pose proof (cancel_order_bounded _ _ id Hb) as Hb'.
  destruct (cancel_order (order_book ex) id) as [[c|] b']; simpl in *;
    (split; [by split|done]).
Qed.

Lemma step_wf ex ex' :
  step ex ex' → exchange_wf ex →
  exchange_wf ex' ∧ compliance_engine ex' = compliance_engine ex.
Proof.
  intros Hstep Hwf. destruct Hstep as [??????????? H|??????????? H|].
  - destruct (submit_order_spec ex t ts a s q ot p tp Hwf)
      as (ex'' & [[r' Hr]|[e Hr]] & ? & ?); rewrite H in Hr;
      simplify_eq; by split.
  - destruct (submit_order_spec ex t ts a s q ot p tp Hwf)
      as (ex'' & [[r' Hr]|[e' Hr]] & ? & ?); rewrite H in Hr;
      simplify_eq; by split.
  - by apply Exchange_cancel_order_spec.
Qed.

Lemma reachable_wf ex : reachable ex → exchange_wf ex.
Proof.
  induction 1 as [|ex ex' _ IH Hstep]; [apply Exchange_init_wf|].
  by apply (step_wf ex ex').
Qed.

(** The compliance engine of a reachable exchange is the one its
    constructor built: nothing ever halts the market or moves the band. *)
Lemma reachable_compliance ex :
  reachable ex →
  ∃ reference_price stock_category,
    compliance_engine ex
    = SEBIComplianceEngine_init reference_price stock_category.
Proof.
  induction 1 as [|ex ex' Hr IH Hstep]; [by eauto|].
  destruct IH as (rp & sc & IH). exists rp, sc.
  apply reachable_wf in Hr. destruct (step_wf ex ex' Hstep Hr) as [_ ->].
  done.
Qed.

(** In particular the market is never halted. *)
Lemma market_never_halted ex :
  reachable ex →
  market_halted (circuit_breaker (compliance_engine ex)) = false
  ∧ halt_end_time (circuit_breaker (compliance_engine ex)) = None.
Proof. intros (rp & sc & ->)%reachable_compliance. done. Qed.

(** Submissions never use up the loop bound. *)
Lemma submit_order_terminates ex t ts a s q ot p tp :
  reachable ex → submit_order ex t ts a s q ot p tp ≠ Diverged.
Proof.
  intros Hr%reachable_wf.
  destruct (submit_order_spec ex t ts a s q ot p tp Hr)
    as (ex' & [[r ->]|[e ->]] & _); done.
Qed.
(** Whatever is left of an accepted order that is not a LIMIT order is
    dropped: its id is not in the handle table afterwards. *)
Lemma non_limit_order_never_rests ex t ts a s q ot p tp r ex' :
  reachable ex → ot ≠ LIMIT →
  submit_order ex t ts a s q ot p tp = Returned r ex' →
  _orders (order_book ex') !! (_order_id_counter ex + 1)%Z = None.
Proof.
  intros [Hwf Hb]%reachable_wf Hot. unfold submit_order.
  set (order := Order_init _ _ _ _ _ _ _ _).
  assert (Hfresh : ∀ b, ids_bounded (_order_id_counter ex) b →
            _orders b !! (_order_id_counter ex + 1)%Z = None).
  { intros b Hb'. apply eq_None_not_Some. intros Hj%Hb'. lia. }
  destruct (validate_order _ _ _) as [[] reason]; simpl.
  2:{ intros [= _ <-]. by apply Hfresh. }
  destruct (match_order _ _) as [[trades filled] b'|e b'|] eqn:Hm; [|done..].
  apply (match_order_non_limit_bounded _ _ order _ _ Hwf Hb Hot) in Hm.
  destruct (last trades) as [tr|].
  - destruct (post_trade_check _ _ _); [|done]. intros [= _ <-].
    by apply Hfresh.
  - intros [= _ <-]. by apply Hfresh.
Qed.
End facade.

(** ** The scenarios of the specification, run on the model *)

Lemma reachable_run_submit ex t ts a s q ot p tp :
  reachable ex → reachable (run_submit ex t ts a s q ot p tp).
Proof.
  intros Hr. unfold run_submit.
  destruct (submit_order ex t ts a s q ot p tp) as [r ex'|e ex'|] eqn:H;
    [|by eauto using reachable, step|done].
  eapply reachable_step; [done|]. by eapply step_submit.
Qed.

Lemma scenario_S1_reachable : reachable scenario_S1.
Proof. repeat apply reachable_run_submit. apply reachable_init. Qed.

Lemma scenario_S2_reachable : reachable scenario_S2.
Proof. apply reachable_run_submit, scenario_S1_reachable. Qed.

(** S1: the book is built without a trade; best bid 99, best ask 101. *)
Example scenario_S1_best :
  best_bid (order_book scenario_S1) = Some (px 99)
  ∧ best_ask (order_book scenario_S1) = Some (px 101).
Proof. split; vm_compute; reflexivity. Qed.

(** S2: MARKET BUY 10 trades 8 @ 101 with order 3, then 2 @ 102 with order
    4; the best ask is then 102 with volume 10. *)
Example scenario_S2_trades :
  ∃ ex',
    submit_order scenario_S1 ten_am (px 0) 5 BUY 10 MARKET None None
    = Returned (true, order_accepted,
                [mkTrade 3 5 (px 101) 8 (px 0);
                 mkTrade 4 5 (px 102) 2 (px 0)]) ex'
    ∧ best_ask (order_book ex') = Some (px 102)
    ∧ asks (order_book ex') !! px 102 = Some (mkLimit (px 102) 10 1 [4%Z]).
Proof.
  eexists. split_and!; [vm_compute; reflexivity|by vm_compute..].
Qed.

(** S3: cancelling order 2 returns true and leaves BUY 10 @ 99 alone on the
    bid side; cancelling it again returns false. *)
Example scenario_S3_cancel :
  (Exchange_cancel_order scenario_S2 2).1 = true
  ∧ bids (order_book scenario_S3)
    = {[ (- px 99)%Qc := mkLimit (px 99) 10 1 [1%Z] ]}
  ∧ best_bid (order_book scenario_S3) = Some (px 99)
  ∧ (Exchange_cancel_order scenario_S3 2).1 = false.
Proof. split_and!; by vm_compute. Qed.

(** S5: LIMIT BUY 15 @ 102 takes the 10 left at 102 from order 4, and the
    5 left of it rest on the bid side at 102; no ask is left. *)
Example scenario_S5_partial_fill_and_rest :
  ∃ ex',
    submit_order scenario_S4 ten_am (px 0) 7 BUY 15 LIMIT (Some (px 102)) None
    = Returned (true, order_accepted, [mkTrade 4 7 (px 102) 10 (px 0)]) ex'
    ∧ best_bid (order_book ex') = Some (px 102)
    ∧ best_ask (order_book ex') = None
    ∧ bids (order_book ex') !! (- px 102)%Qc
      = Some (mkLimit (px 102) 5 1 [7%Z]).
Proof.
  eexists. split_and!; [vm_compute; reflexivity|by vm_compute..].
Qed.

(** ** C1: FOK orders *)

(** C1, as stated, fails on [match_order]: with asks {101: 8, 102: 12} the
    FOK BUY 25 @ 102 of scenario S6 finds only 20 at acceptable prices, yet
    the matching engine trades 8 @ 101 and 12 @ 102 and empties the ask
    side. *)
Lemma match_order_sweeps_fok :
  (spec_fok_available (order_book scenario_S1) BUY (px 102) < quantity fok_S6)%Z
  ∧ ∃ filled b',
      match_order (order_book scenario_S1) fok_S6
      = Returned ([mkTrade 3 5 (px 101) 8 (px 0);
                   mkTrade 4 5 (px 102) 12 (px 0)], filled) b'
      ∧ asks (order_book scenario_S1) ≠ ∅ ∧ asks b' = ∅.
Proof.
  split; [by vm_compute|]. eexists _, _. split_and!.
  - vm_compute. reflexivity.
  - by vm_compute.
  - by vm_compute.
Qed.

(** C1, amended: every FOK order submitted to the exchange, whatever its
    quantity, is rejected by the compliance gate, since no session allows
    FOK (or because the market is halted); no trades are emitted and the
    book and the compliance state are unchanged. *)
Theorem fok_rejected_at_gate ex t ts a s q p tp :
  ∃ reason ex',
    submit_order ex t ts a s q FOK p tp = Returned (false, reason, []) ex'
    ∧ (reason = market_is_halted
       ∨ reason = not_allowed_in_session FOK regular)
    ∧ order_book ex' = order_book ex
    ∧ compliance_engine ex' = compliance_engine ex.
Proof.
  unfold submit_order, validate_order.
  destruct (market_halted _); simpl; eauto 10.
Qed.

(** ** C2: the circuit breaker after a trade *)

(** C2 on the source. With reference price 100 a MARKET BUY trades at 112;
    the index breaker reports the 10% level with a 45 minute halt, but
    [post_trade_check] leaves [market_halted] false and [halt_end_time]
    unset, and the submission made one minute later is accepted. *)
Lemma circuit_breaker_never_halts :
  check_index_circuit_breaker
    (circuit_breaker (compliance_engine scenario_far_ask)) (px 112) ten_am
  = Ok (mkHaltInfo true (Some (pct 10)) (Some (minutes 45)))
  ∧ ∃ ex',
      submit_order scenario_far_ask ten_am (px 0) 2 BUY 5 MARKET None None
      = Returned (true, order_accepted, [mkTrade 1 2 (px 112) 5 (px 0)]) ex'
      ∧ market_halted (circuit_breaker (compliance_engine ex')) = false
      ∧ halt_end_time (circuit_breaker (compliance_engine ex')) = None
      ∧ ∃ ex'',
          submit_order ex' (mk_time 10 1 0 0) (px 0) 3 BUY 1 LIMIT
            (Some (px 100)) None
          = Returned (true, order_accepted, []) ex''.
Proof.
  split; [vm_compute; reflexivity|].
  eexists. split_and!; [vm_compute; reflexivity|done|done|].
  eexists. vm_compute. reflexivity.
Qed.

(** ** C3: STOP_LOSS orders *)

(** C3 on the source. In scenario S1 (best ask 101, no trade yet) a STOP_LOSS
    BUY 5 with trigger price 105 is matched on submission like a MARKET
    order: it trades 5 @ 101 against order 3. *)
Lemma stop_loss_matched_on_submission :
  ∃ ex',
    submit_order scenario_S1 ten_am (px 0) 5 BUY 5 STOP_LOSS None
      (Some (px 105))
    = Returned (true, order_accepted, [mkTrade 3 5 (px 101) 5 (px 0)]) ex'
    ∧ _orders (order_book ex') !! 5%Z = None.
Proof. eexists. split; [vm_compute; reflexivity|by vm_compute]. Qed.

(** ** C4: IOC orders *)

(** C4 on the source. In scenario S1 the best ask is 101; an IOC BUY 10 with
    limit price 100 nevertheless trades 8 @ 101 and 2 @ 102. Nothing of it
    rests. *)
Lemma ioc_trades_through_its_limit :
  best_ask (order_book scenario_S1) = Some (px 101)
  ∧ ∃ ex',
      submit_order scenario_S1 ten_am (px 0) 5 BUY 10 IOC (Some (px 100)) None
      = Returned (true, order_accepted,
                  [mkTrade 3 5 (px 101) 8 (px 0);
                   mkTrade 4 5 (px 102) 2 (px 0)]) ex'
      ∧ _orders (order_book ex') !! 5%Z = None.
Proof.
  split; [vm_compute; reflexivity|].
  eexists. split; [vm_compute; reflexivity|by vm_compute].
Qed.

(** ** C5: sessions *)

(** C5 on the source. At 03:00 the windows of the specification give the
    closed session, but [get_current_session] answers regular and a LIMIT
    order is accepted. *)
Lemma session_is_always_regular :
  spec_session (mk_time 3 0 0 0) = closed
  ∧ TradingSessionManager.get_current_session (mk_time 3 0 0 0) = regular
  ∧ ∃ ex',
      submit_order (Exchange_init (px 100) "fno_stocks") (mk_time 3 0 0 0)
        (px 0) 1 BUY 10 LIMIT (Some (px 99)) None
      = Returned (true, order_accepted, []) ex'.
Proof.
  split_and!; [done..|]. eexists. vm_compute. reflexivity.
Qed.

(** ** C6: what the compliance gate validates *)

(** C6, as stated, fails: [validate_order] passes a LIMIT order of quantity 0
    and a LIMIT order that carries no price. *)
Lemma gate_passes_invalid_orders :
  validate_order (SEBIComplianceEngine_init (px 100) "fno_stocks")
    (Order_init 1 1 BUY 0 LIMIT (px 0) (Some (px 99)) None) ten_am
  = (true, order_is_compliant)
  ∧ validate_order (SEBIComplianceEngine_init (px 100) "fno_stocks")
      (Order_init 1 1 SELL 10 LIMIT (px 0) None None) ten_am
    = (true, order_is_compliant).
Proof. split; vm_compute; reflexivity. Qed.

(** C6, amended: the compliance gate has no invalid-order check; it looks
    neither at the quantity of an order nor at whether a price is there. For
    all times and all compliance states in which the market is not halted,
    an order passes [validate_order], whatever its quantity (positive or
    not) and whether or not it carries a price, when its type is allowed in
    the session and its price, if present and not zero, lies within the
    price band. *)
Theorem gate_ignores_quantity_and_missing_price ce o t :
  market_halted (circuit_breaker ce) = false →
  TradingSessionManager.is_order_allowed (order_type o) t = true →
  (∀ p, price o = Some p →
        p = 0%Qc ∨ check_price_band (circuit_breaker ce) p = true) →
  validate_order ce o t = (true, order_is_compliant).
Proof.
  intros Hh Ha Hp. unfold validate_order. rewrite Hh, Ha. simpl.
  destruct (price o) as [p|]; [|done]. simpl.
  destruct (Hp p eq_refl) as [-> | ->];
    [by rewrite bool_decide_eq_false_2; [|intros H; by apply H]|].
  by rewrite andb_false_r.
Qed.

Lemma gate_ignores_quantity_and_missing_price_witness :
  validate_order (SEBIComplianceEngine_init (px 100) "fno_stocks")
    (Order_init 1 1 BUY (-3) LIMIT (px 0) (Some (px 99)) None) ten_am
  = (true, order_is_compliant)
  ∧ validate_order (SEBIComplianceEngine_init (px 100) "fno_stocks")
      (Order_init 1 1 SELL 10 IOC (px 0) None None) ten_am
    = (true, order_is_compliant).
Proof.
  split; apply gate_ignores_quantity_and_missing_price.
  - reflexivity.
  - reflexivity.
  - intros p [= <-]. right. vm_compute. reflexivity.
  - reflexivity.
  - reflexivity.
  - intros p. simpl. discriminate.
Defined.

(** ** C7: volume and count of every level *)

(** C7: in every exchange reached from a new one by submissions and
    cancellations, every level present in either side map holds orders of the
    handle table only, its [total_volume] is the sum of their remaining
    quantities and its [order_count] is their number. Partial fills are
    among the steps: [fill_maker] takes the traded amount from the level
    when it takes it from the maker ([fill_maker_partial_wf],
    [fill_maker_full_cancel]). *)
Theorem level_volume_and_count ex s k l :
  reachable ex →
  book_side s (order_book ex) !! k = Some l →
  (∀ i, i ∈ queue l → is_Some (_orders (order_book ex) !! i))
  ∧ total_volume l = queue_volume (_orders (order_book ex)) (queue l)
  ∧ order_count l = Z.of_nat (length (queue l)).
Proof.
  intros [Hwf _]%reachable_wf Hl.
  destruct (bw_levels _ Hwf s k l Hl) as [_ _ _ Hos Hv Hc].
  split_and!; [|done..]. intros i Hi. destruct (Hos i Hi) as (o & -> & _).
  by eexists.
Qed.

Lemma level_volume_and_count_witness :
  let l := mkLimit (px 102) 10 1 [4%Z] in
  (∀ i, i ∈ queue l → is_Some (_orders (order_book scenario_S2) !! i))
  ∧ total_volume l = queue_volume (_orders (order_book scenario_S2)) (queue l)
  ∧ order_count l = Z.of_nat (length (queue l)).
Proof.
  apply (level_volume_and_count scenario_S2 SELL (px 102)).
  - exact scenario_S2_reachable.
  - vm_compute. reflexivity.
Defined.

(** ** The price band *)

Section band.
Implicit Types (ref p : float) (cat : string).

#[local] Ltac by_computation :=
  apply (bool_decide_unpack _); vm_compute; exact I.

Lemma price_band_range cat :
  (1 - _get_price_band cat ≤ 1 + _get_price_band cat)%Qc
  ∧ (0 ≤ 1 + _get_price_band cat)%Qc
  ∧ (0 < 1 - _get_price_band cat)%Qc.
Proof.
  unfold _get_price_band. repeat case_decide; split_and!; by_computation.
Qed.



Lemma lower_band_pos ref cat :
  (0 < ref)%Qc → (0 < lower_band (CircuitBreakerMonitor_init ref cat))%Qc.
Proof.
  intros Href. simpl. destruct (price_band_range cat) as (_ & _ & H).
  rewrite <-(Qcmult_0_l (1 - _get_price_band cat)).
  by apply Qcmult_lt_compat_r.
Qed.

End band.

(** ** C8: the edge of the price band *)



(** ** C9: cancellation *)



(** ** C10: a price of zero *)

(** C10: an order whose price is 0 or absent is never rejected for its
    price, in any compliance state: the band check is skipped, and the order
    passes [validate_order] whenever the market is not halted and the session
    allows its type. Yet 0 is strictly below [lower_band], and fails the band
    check, for every positive reference price and every category (all bands
    are below 100%). *)
Theorem zero_price_bypasses_band ce o t :
  truthy (price o) = false →
  (∀ p l u, validate_order ce o t ≠ (false, outside_price_band p l u))
  ∧ (market_halted (circuit_breaker ce) = false →
     TradingSessionManager.is_order_allowed (order_type o) t = true →
     validate_order ce o t = (true, order_is_compliant))
  ∧ (∀ ref cat, (0 < ref)%Qc →
       circuit_breaker ce = CircuitBreakerMonitor_init ref cat →
       (0 < lower_band (circuit_breaker ce))%Qc
       ∧ check_price_band (circuit_breaker ce) 0%Qc = false).
Proof.
  intros Hp. split_and!.
  - intros p l u. unfold validate_order.
    destruct (market_halted _); [done|].
    destruct (negb _); [done|].
    destruct (price o) as [p'|]; [|done]. by rewrite Hp.
  - intros Hh Ha. unfold validate_order. rewrite Hh, Ha. simpl.
    destruct (price o) as [p'|]; [|done]. by rewrite Hp.
  - intros ref cat Href ->. pose proof (lower_band_pos ref cat Href) as Hl.
    split; [done|]. unfold check_price_band.
    rewrite bool_decide_eq_false_2; [done|]. by apply Qclt_not_le.
Qed.

Lemma zero_price_bypasses_band_witness :
  let ce := SEBIComplianceEngine_init (px 100) "fno_stocks" in
  let o := Order_init 1 1 SELL 10 LIMIT (px 0) (Some (px 0)) None in
  (∀ p l u, validate_order ce o ten_am ≠ (false, outside_price_band p l u))
  ∧ validate_order ce o ten_am = (true, order_is_compliant)
  ∧ (0 < lower_band (circuit_breaker ce))%Qc
  ∧ check_price_band (circuit_breaker ce) 0%Qc = false.
Proof.
  destruct (zero_price_bypasses_band
              (SEBIComplianceEngine_init (px 100) "fno_stocks")
              (Order_init 1 1 SELL 10 LIMIT (px 0) (Some (px 0)) None) ten_am)
    as (H1 & H2 & H3).
  - vm_compute. reflexivity.
  - split_and!; [exact H1|apply H2; reflexivity|..];
      apply (H3 (px 100) "fno_stocks"); try reflexivity;
      apply (bool_decide_unpack _); vm_compute; exact I.
Defined.

(** * Further properties *)

(** ** What one fill changes *)

Section frames.
Implicit Types (b : OrderBook) (s ms : OrderSide) (l : Limit) (o m : Order)
  (i j : Z).

Lemma store_le_refl (m : gmap Z Order) : store_le m m.
Proof.
  intros j o Ho. exists o. split_and!; [done| |lia]. by destruct o.
Qed.

Lemma store_le_trans (m1 m2 m3 : gmap Z Order) :
  store_le m1 m2 → store_le m2 m3 → store_le m1 m3.
Proof.
  intros H12 H23 j o1 Ho1.
  destruct (H12 j o1 Ho1) as (o2 & Ho2 & E2 & Hq2).
  destruct (H23 j o2 Ho2) as (o3 & Ho3 & E3 & Hq3).
  exists o3. split_and!; [done| |lia]. rewrite E2, E3. done.
Qed.

Lemma store_le_delete (m : gmap Z Order) i : store_le (delete i m) m.
Proof.
  intros j o [_ Ho]%lookup_delete_Some. by apply store_le_refl.
Qed.

Lemma store_le_fill (m0 : gmap Z Order) i m q :
  m0 !! i = Some m → (0 ≤ q)%Z →
  store_le (<[i := set_quantity m (quantity m - q)]> m0) m0.
Proof.
  intros Hm Hq j o' [[<- <-]|[_ Ho']]%lookup_insert_Some.
  - exists m. split_and!; [done..|simpl; lia].
  - by apply store_le_refl.
Qed.

Lemma store_le_None (m' m : gmap Z Order) j :
  store_le m' m → m !! j = None → m' !! j = None.
Proof.
  intros Hle Hj. apply eq_None_not_Some. intros [o' Ho'].
  destruct (Hle j o' Ho') as (o & Ho & _). congruence.
Qed.

Lemma orders_cancel_order b i :
  _orders (cancel_order b i).2 = delete i (_orders b).
Proof.
  unfold cancel_order. destruct (_orders b !! i) as [o|] eqn:Ho.
  - destruct (parent_limit o); simpl; [|done].
    rewrite book_side_set_orders.
    destruct (book_side (side o) b !! _); simpl; [|done].
    by rewrite orders_set_book_side.
  - simpl. by rewrite delete_id.
Qed.

Lemma cancel_order_other_side b i m s :
  _orders b !! i = Some m → s ≠ side m →
  book_side s (cancel_order b i).2 = book_side s b.
Proof.
  intros Hm Hs. unfold cancel_order. rewrite Hm.
  destruct (parent_limit m); simpl; [|by rewrite book_side_set_orders].
  rewrite book_side_set_orders.
  destruct (book_side (side m) b !! _); simpl;
    [|by rewrite book_side_set_orders].
  by rewrite book_side_set_other, book_side_set_orders.
Qed.

Lemma cancel_order_other_key b i m lp k :
  _orders b !! i = Some m → parent_limit m = Some lp →
  k ≠ book_key (side m) lp →
  book_side (side m) (cancel_order b i).2 !! k = book_side (side m) b !! k.
Proof.
  intros Hm Hp Hk. unfold cancel_order. rewrite Hm, Hp. simpl.
  rewrite book_side_set_orders.
  destruct (book_side (side m) b !! _); simpl;
    [|by rewrite book_side_set_orders].
  rewrite book_side_set_same.
  case_decide; [by rewrite lookup_delete_ne|by rewrite lookup_insert_ne].
Qed.

Lemma fill_maker_other_side b ms key i m q s :
  s ≠ ms → book_side s (fill_maker b ms key i m q) = book_side s b.
Proof.
  intros Hs. unfold fill_maker.
  by rewrite book_side_set_orders, book_side_set_other.
Qed.

Lemma fill_maker_other_key b ms key i m q k :
  k ≠ key →
  book_side ms (fill_maker b ms key i m q) !! k = book_side ms b !! k.
Proof.
  intros Hk. unfold fill_maker.
  by rewrite book_side_set_orders, book_side_set_same, lookup_alter_ne.
Qed.

Lemma orders_fill_maker b ms key i m q :
  _orders (fill_maker b ms key i m q)
  = <[i := set_quantity m (quantity m - q)]> (_orders b).
Proof. unfold fill_maker. by rewrite orders_set_orders, orders_set_book_side. Qed.
End frames.

(** ** The loops of [match_order], one fill at a time *)

Section walk.
Implicit Types (b : OrderBook) (s ms : OrderSide) (l : Limit) (o m : Order)
  (i j : Z) (st : MatchState) (nodes next : list Z).

#[local] Arguments cancel_order : simpl never.
#[local] Arguments fill_maker : simpl never.

(** The order behind the node the inner loop is at. *)
Lemma step_pre_maker ms key lp i m next st :
  step_pre ms key lp i m next st →
  order_id m = i ∧ (0 < quantity m)%Z ∧ side m = ms
  ∧ parent_limit m = Some lp
  ∧ ∃ l, book_side ms (ms_book st) !! key = Some l ∧ queue l = i :: next
         ∧ limit_price l = lp.
Proof.
  intros [Hwf Hs Hk Hleast Hprice Hpos (l & Hl & Hq) Hm].
  destruct (bw_orders _ Hwf i m Hm) as (Hid & Hqm & _).
  assert (Hi : i ∈ queue l) by (rewrite Hq; by left).
  destruct (level_of_order _ _ _ l i m Hwf Hl Hi Hm) as (-> & Hp & Hk').
  assert (limit_price l = lp) as Hlp.
  { apply (book_key_inj (side m)). congruence. }
  split_and!; [done..|congruence|]. exists l. done.
Qed.

Lemma fill_step_incoming ms key lp i m st :
  ms_incoming (fill_step ms key lp i m st)
  = set_quantity (ms_incoming st)
      (quantity (ms_incoming st)
       - Z.min (quantity (ms_incoming st)) (quantity m)).
Proof. unfold fill_step. by case_decide. Qed.

Lemma fill_step_trades ms key lp i m st :
  ms_trades (fill_step ms key lp i m st)
  = ms_trades st
    ++ [mkTrade i (order_id (ms_incoming st)) lp
          (Z.min (quantity (ms_incoming st)) (quantity m))
          (timestamp (ms_incoming st))].
Proof. unfold fill_step. by case_decide. Qed.

Lemma fill_step_orders ms key lp i m st :
  _orders (ms_book (fill_step ms key lp i m st))
  = if decide (quantity m ≤ quantity (ms_incoming st))%Z
    then delete i (_orders (ms_book st))
    else <[i := set_quantity m (quantity m - quantity (ms_incoming st))]>
           (_orders (ms_book st)).
Proof.
  unfold fill_step. case_decide; cbn [ms_book].
  - apply orders_cancel_order.
  - rewrite orders_fill_maker. by rewrite Z.min_l by lia.
Qed.

Lemma fill_step_dom ms key lp i m st s :
  dom (book_side s (ms_book (fill_step ms key lp i m st)))
  ⊆ dom (book_side s (ms_book st)).
Proof.
  unfold fill_step. case_decide; cbn [ms_book].
  - apply cancel_order_dom.
  - by rewrite fill_maker_dom.
Qed.

Lemma fill_step_other_side ms key lp i m next st s :
  step_pre ms key lp i m next st → s ≠ ms →
  book_side s (ms_book (fill_step ms key lp i m st))
  = book_side s (ms_book st).
Proof.
  intros Hpre Hs.
  destruct (step_pre_maker _ _ _ _ _ _ _ Hpre) as (_ & _ & Hsm & _).
  destruct Hpre as [_ _ _ _ _ _ _ Hm].
  unfold fill_step. case_decide; cbn [ms_book].
  - apply (cancel_order_other_side _ _ m); [done|congruence].
  - by apply fill_maker_other_side.
Qed.

Lemma fill_step_other_key ms key lp i m next st k :
  step_pre ms key lp i m next st → k ≠ key →
  book_side ms (ms_book (fill_step ms key lp i m st)) !! k
  = book_side ms (ms_book st) !! k.
Proof.
  intros Hpre Hk.
  destruct (step_pre_maker _ _ _ _ _ _ _ Hpre) as (_ & _ & Hsm & Hp & _).
  destruct Hpre as [_ _ Hkey _ _ _ _ Hm].
  unfold fill_step. case_decide; cbn [ms_book].
  - rewrite <-Hsm. apply (cancel_order_other_key _ _ m lp); [done..|].
    rewrite Hsm. congruence.
  - by apply fill_maker_other_key.
Qed.

(** The body of the inner loop is [fill_step], and what held before it holds
    after it for the rest of the level. *)
Lemma walk_level_cons ms key lp i next st :
  walk_pre ms key lp (i :: next) st → (0 < quantity (ms_incoming st))%Z →
  ∃ m, step_pre ms key lp i m next st
       ∧ walk_level (i :: next) ms key lp st
         = walk_level next ms key lp (fill_step ms key lp i m st)
       ∧ walk_pre ms key lp next (fill_step ms key lp i m st).
Proof.
  intros [Hwf Hs Hk Hleast Hprice Hlevel] Hpos.
  destruct Hlevel as [?|(l & Hl & Hql)]; [lia|].
  pose proof (bw_levels _ Hwf _ _ _ Hl) as [Hk' Hnd Hnn Hos Hv Hc].
  assert (Hi : i ∈ queue l) by (rewrite Hql; by left).
  destruct (Hos i Hi) as (m & Hm & Hsm & Hp).
  destruct (bw_orders _ Hwf i m Hm) as (Hid & Hqm & _).
  assert (lp = limit_price l) as Hlp.
  { apply (book_key_inj ms). congruence. }
  assert (Hpre : step_pre ms key lp i m next st).
  { split; try done. by exists l. }
  exists m. split; [done|].
  assert (Hleast' : ∀ k, k ∈ dom (book_side ms
              (ms_book (fill_step ms key lp i m st))) → (key ≤ k)%Qc).
  { intros k Hk2. apply Hleast. by eapply fill_step_dom. }
  assert (Hwalk : ∀ b', ms_book (fill_step ms key lp i m st) = b' →
            book_wf b' →
            (quantity (ms_incoming (fill_step ms key lp i m st)) ≤ 0)%Z
            ∨ level_is b' ms key next →
            walk_pre ms key lp next (fill_step ms key lp i m st)).
  { intros b' Hb' Hwf' Hlev. split; try done.
    - by rewrite Hb'.
    - by rewrite fill_step_incoming.
    - by rewrite fill_step_incoming.
    - by rewrite Hb'. }
  simpl. rewrite bool_decide_eq_true_2 by done. rewrite Hm.
  set (qi := quantity (ms_incoming st)) in *.
  clear Hpre Hleast Hleast' Hprice Hs.
  subst lp key. rewrite <-Hsm in *. clear Hsm.
  revert Hwalk. unfold fill_step. fold qi.
  destruct (decide (quantity m ≤ qi)%Z) as [Hle|Hle].
  - assert (qi `min` quantity m = quantity m)%Z as -> by lia.
    intros Hwalk. rewrite decide_True by (simpl; lia).
    rewrite (fill_maker_full_cancel _ _ _ Hwf Hm l Hl Hi).
    rewrite Hid. split; [done|].
    apply (Hwalk _ eq_refl).
    + by apply cancel_order_wf.
    + right. by apply (cancel_head_level_is _ _ _ l m).
  - assert (qi `min` quantity m = qi)%Z as -> by lia.
    intros Hwalk. rewrite decide_False by (simpl; lia). rewrite Hid.
    split; [done|]. apply (Hwalk _ eq_refl).
    + apply fill_maker_partial_wf; [done..|lia|done|done].
    + left. simpl. lia.
Qed.

(** Whatever every fill preserves holds after the walk over a level, where
    either the incoming order is exhausted or the level is gone. *)
Lemma walk_level_inv (I : MatchState → Prop) ms key lp :
  (∀ i m next st, step_pre ms key lp i m next st → I st →
                  I (fill_step ms key lp i m st)) →
  ∀ nodes st, walk_pre ms key lp nodes st → I st →
  I (walk_level nodes ms key lp st).
Proof.
  intros Hstep. induction nodes as [|i next IH]; intros st Hpre HI; [done|].
  destruct (decide (0 < quantity (ms_incoming st))%Z) as [Hpos|Hpos].
  - destruct (walk_level_cons _ _ _ _ _ _ Hpre Hpos) as (m & Hsp & -> & Hpre').
    apply IH; [done|]. by eapply Hstep.
  - simpl. by rewrite bool_decide_eq_false_2.
Qed.
End walk.

Section loop.
Implicit Types (b : OrderBook) (s ms : OrderSide) (l : Limit) (o m : Order)
  (i j n : Z) (st : MatchState) (nodes next : list Z).

(** When [price_condition] holds the opposite side has a best level, and a
    LIMIT order accepts its price. *)
Lemma price_condition_true b o :
  price_condition b o = Ok true →
  ∃ key l, peekitem0 (book_to_match b o) = Some (key, l)
           ∧ limit_ok o (limit_price l).
Proof.
  unfold price_condition, book_to_match, limit_ok.
  destruct (decide (order_type o = LIMIT)) as [Ht|Ht].
  - unfold is_matchable, best_ask, best_bid.
    destruct (side o); simpl;
      (destruct (peekitem0 _) as [[key l]|]; simpl; [|done];
       case_decide; [done|]; destruct (price o) as [p|]; [|done];
       intros [= Hle%bool_decide_eq_true]; exists key, l; split; [done|];
       intros _; exists p; by split).
  - intros [= Hne%bool_decide_eq_true].
    destruct (peekitem0_is_Some _ Hne) as [[key l] Hpeek].
    exists key, l. split; [done|]. by intros ?.
Qed.

(** [price_condition] raises for a LIMIT order without a price only. *)
Lemma price_condition_total b o :
  (order_type o = LIMIT → is_Some (price o)) →
  ∃ c, price_condition b o = Ok c.
Proof.
  intros Hp. unfold price_condition, is_matchable.
  case_decide as Ht; [|by eauto].
  destruct (Hp Ht) as [p ->].
  destruct (match side o with BUY => _ | SELL => _ end); [|by eauto].
  case_decide; by eauto.
Qed.

Section inv.
Variable o0 : Order.
Variable I : MatchState → Prop.
Hypothesis Hstep : ∀ key lp i m next st,
  step_pre (opposite (side o0)) key lp i m next st → I st →
  I (fill_step (opposite (side o0)) key lp i m st).

(** Whatever every fill preserves holds when the outer loop ends, which it
    does by returning, with the incoming order exhausted or with
    [price_condition] false, when it was entered with the value of
    [price_condition]. *)
Lemma match_loop_inv n fuel : ∀ cond st,
  book_wf (ms_book st) → ids_bounded n (ms_book st) →
  (∃ q, ms_incoming st = set_quantity o0 q) →
  price_condition (ms_book st) (ms_incoming st) = Ok cond →
  (size (book_to_match (ms_book st) (ms_incoming st)) < fuel)%nat
  ∨ ((0 < fuel)%nat ∧ (quantity (ms_incoming st) ≤ 0)%Z) →
  I st →
  ∃ st', match_loop fuel cond st = Returned () st'
    ∧ I st' ∧ book_wf (ms_book st') ∧ ids_bounded n (ms_book st')
    ∧ (∃ q', ms_incoming st' = set_quantity o0 q')
    ∧ ((quantity (ms_incoming st') ≤ 0)%Z
       ∨ price_condition (ms_book st') (ms_incoming st') = Ok false).
Proof.
  induction fuel as [|fuel IH]; intros cond st Hwf Hb Hinc Hcond Hfuel HI;
    [lia|].
  simpl. case_bool_decide as Hq; simpl.
  2:{ exists st. split_and!; [done..|left; lia]. }
  destruct cond.
  2:{ exists st. split_and!; [done..|by right]. }
  destruct (price_condition_true _ _ Hcond) as (key & l & Hpeek & Hprice).
  rewrite Hpeek.
  pose proof (peekitem0_lookup _ _ _ Hpeek) as Hl.
  unfold book_to_match in Hl, Hpeek.
  set (ms := opposite (side (ms_incoming st))) in *.
  destruct (bw_levels _ Hwf _ _ _ Hl) as [Hkey _ Hnn _ _ _].
  assert (Hlev : level_is (ms_book st) ms key (queue l)).
  { unfold level_is. destruct (queue l) eqn:Hql; [done|].
    rewrite <-Hql. eauto. }
  assert (Hpre : walk_pre ms key (limit_price l) (queue l) st).
  { split; try done; [|by right].
    intros k [l' Hl']%elem_of_dom. by eapply peekitem0_least. }
  destruct (walk_level_spec n (queue l) ms key (limit_price l) st Hwf Hb)
    as (H1 & H2 & H3 & (q' & H4) & H5); [by right|].
  assert (HI' : I (walk_level (queue l) ms key (limit_price l) st)).
  { apply walk_level_inv; [|done..].
    intros i m next st2. unfold ms. destruct Hinc as [q ->]. apply Hstep. }
  set (st' := walk_level (queue l) ms key (limit_price l) st) in *.
  destruct (price_condition_total (ms_book st') (ms_incoming st'))
    as [cond' Hcond'].
  { rewrite H4. simpl. intros Ht. destruct (Hprice Ht) as (p & -> & _).
    by eauto. }
  rewrite Hcond'.
  assert (Hinc' : ∃ q, ms_incoming st' = set_quantity o0 q).
  { destruct Hinc as [q Hinc]. rewrite H4, Hinc. by eexists. }
  apply (IH cond' st' H1 H2 Hinc' Hcond'); [|done].
  unfold book_to_match. rewrite H4. simpl. fold ms.
  destruct Hfuel as [Hfuel|[_ ?]]; [|lia].
  unfold book_to_match in Hfuel. fold ms in Hfuel.
  rewrite <-!size_dom in *.
  assert (key ∈ dom (book_side ms (ms_book st))) by by eapply elem_of_dom_2.
  destruct H5 as [H5|H5].
  - right. split; [|by rewrite H4 in H5].
    destruct (size (dom (book_side ms (ms_book st)))) eqn:Hsz; [|lia].
    apply size_empty_iff in Hsz. set_solver.
  - left. apply not_elem_of_dom in H5.
    assert (dom (book_side ms (ms_book st'))
            ⊂ dom (book_side ms (ms_book st))) as Hsub%subset_size.
    { split; [apply H3|]. intros Hsub. apply H5, Hsub. done. }
    lia.
Qed.
End inv.
End loop.

(** ** What the loops keep *)

Section trace.
Implicit Types (b : OrderBook) (s ms : OrderSide) (l : Limit) (o m : Order)
  (i j n : Z) (st : MatchState) (t : Trade) (ts : list Trade).

#[local] Arguments cancel_order : simpl never.
#[local] Arguments fill_maker : simpl never.

Lemma sum_trades_app ts1 ts2 :
  sum_trades (ts1 ++ ts2) = (sum_trades ts1 + sum_trades ts2)%Z.
Proof. unfold sum_trades. induction ts1; simpl; lia. Qed.

Lemma sum_trades_nonneg ts :
  Forall (λ t, 0 < trade_quantity t)%Z ts → (0 ≤ sum_trades ts)%Z.
Proof. unfold sum_trades. induction 1; simpl; lia. Qed.

Lemma sum_trades_pos ts :
  Forall (λ t, 0 < trade_quantity t)%Z ts → ts ≠ [] → (0 < sum_trades ts)%Z.
Proof.
  intros H Hne. destruct H as [|t ts Ht Hts]; [done|].
  apply sum_trades_nonneg in Hts. unfold sum_trades in *. simpl. lia.
Qed.

Lemma traded_snoc j ts t :
  traded j (ts ++ [t])
  = (traded j ts
     + if decide (maker_order_id t = j) then trade_quantity t else 0)%Z.
Proof.
  unfold traded. rewrite filter_app, sum_trades_app. f_equal.
  rewrite filter_cons, filter_nil. case_decide; simpl; lia.
Qed.

Lemma traded_absent j ts :
  j ∉ maker_order_id <$> ts → traded j ts = 0%Z.
Proof.
  unfold traded. induction ts as [|t ts IH]; [done|].
  rewrite fmap_cons, not_elem_of_cons. intros [Hne Hj].
  rewrite filter_cons, decide_False by done. by apply IH.
Qed.

Lemma omap_ext_Forall {A B} (f g : A → option B) (xs : list A) :
  Forall (λ x, f x = g x) xs → omap f xs = omap g xs.
Proof. induction 1 as [|x xs Hx _ IH]; [done|]. csimpl. by rewrite Hx, IH. Qed.

Lemma trace_inv_init b o : trace_inv b o (mkMatchState b o [] []).
Proof.
  split; simpl; try done.
  - rewrite Z.sub_0_r. by destruct o.
  - intros j. unfold traded. simpl. lia.
  - apply store_le_refl.
  - constructor.
  - exists []. split; [done|by left].
  - constructor.
  - intros k l0 Hl0. split; [apply prefix_nil|by rewrite Hl0].
  - intros k l0 Hl0. exists []. by rewrite Hl0.
Qed.

(** Every fill keeps [trace_inv]. *)
Lemma trace_inv_step b0 o0 key lp i m next st :
  step_pre (opposite (side o0)) key lp i m next st →
  trace_inv b0 o0 st →
  trace_inv b0 o0 (fill_step (opposite (side o0)) key lp i m st).
Proof.
  intros Hpre
    [Hinc Hts Hqty Hle Hown Hlev Hprio Hsort Hprice Hlast Hmk _ _ Hfil
     Hfifo Hqueue].
  destruct (step_pre_maker _ _ _ _ _ _ _ Hpre)
    as (Hid & Hqm & Hsm & Hpm & l & Hl & Hql & Hlp).
  pose proof Hpre as [Hwf _ Hkey Hleast Hprice' Hpos _ Hm].
  set (ms := opposite (side o0)) in *.
  set (st' := fill_step ms key lp i m st).
  set (qi := quantity (ms_incoming st)) in *.
  set (q := (qi `min` quantity m)%Z).
  set (t := mkTrade i (order_id (ms_incoming st)) lp q
                    (timestamp (ms_incoming st))).
  assert (Hts' : ms_trades st' = ms_trades st ++ [t])
    by apply fill_step_trades.
  assert (Hinc' : ms_incoming st' = set_quantity (ms_incoming st) (qi - q))
    by apply fill_step_incoming.
  assert (Hord' : _orders (ms_book st')
                  = if decide (quantity m ≤ qi)%Z
                    then delete i (_orders (ms_book st))
                    else <[i := set_quantity m (quantity m - qi)]>
                           (_orders (ms_book st)))
    by apply fill_step_orders.
  assert (Hdom' : ∀ s, dom (book_side s (ms_book st'))
                       ⊆ dom (book_side s (ms_book st)))
    by (intros s; apply fill_step_dom).
  assert (Hq : (0 < q)%Z) by (unfold q; lia).
  destruct (Hle i m Hm) as (m0 & Hm0 & Em & Hqm0).
  assert (Hold : Forall (λ t, _orders (ms_book st) !! maker_order_id t = None)
                        (ms_trades st)).
  { destruct Hlast as (ts & Habs & [->|[? _]]); [done|]. unfold qi in *. lia. }
  assert (Hfresh : i ∉ maker_order_id <$> ms_trades st).
  { intros (t0 & -> & Ht0)%list_elem_of_fmap.
    rewrite Forall_forall in Hold. rewrite (Hold _ Ht0) in Hm. done. }
  assert (Hkeyin : key ∈ dom (book_side ms (ms_book st)))
    by by eapply elem_of_dom_2.
  assert (Hle' : store_le (_orders (ms_book st')) (_orders (ms_book st))).
  { rewrite Hord'. case_decide.
    - apply store_le_delete.
    - apply store_le_fill; [done|]. unfold qi. lia. }
  split.
  - rewrite Hinc', Hts', sum_trades_app, Hinc. simpl.
    unfold set_quantity. simpl. f_equal.
    unfold qi. rewrite Hinc. simpl. lia.
  - rewrite Hts'. apply Forall_app_2; [done|]. constructor; [|done].
    unfold trade_ok. simpl. rewrite Hinc. simpl. split_and!; [done..|].
    exists m0. split_and!; [done| | |unfold q; lia].
    + rewrite Em in Hsm. exact Hsm.
    + rewrite Em in Hpm. exact Hpm.
  - intros j. rewrite Hts', traded_snoc. simpl.
    pose proof (Hqty j) as Hj. unfold resting_quantity in Hj |- *.
    rewrite Hord'.
    destruct (decide (i = j)) as [<-|Hne]; [rewrite Hm in Hj; simpl in Hj|].
    + case_decide; [rewrite lookup_delete_eq|rewrite lookup_insert_eq];
        simpl; unfold q; lia.
    + case_decide;
        [rewrite lookup_delete_ne by done|rewrite lookup_insert_ne by done];
        lia.
  - by eapply store_le_trans.
  - rewrite <-Hown. apply (fill_step_other_side _ _ _ _ _ next); [done|].
    unfold ms. intros E. by apply (opposite_ne (side o0)).
  - etrans; [apply Hdom'|done].
  - rewrite Hts'. apply Forall_app_2.
    + eapply Forall_impl; [exact Hprio|]. intros t0 Ht0 k Hk. apply Ht0.
      by apply Hdom'.
    + constructor; [|done]. intros k Hk. unfold trade_key. simpl.
      fold ms. rewrite <-Hkey. apply Hleast. by apply Hdom'.
  - rewrite Hts', fmap_app. apply StronglySorted_app_2; [|done|].
    + intros k1 k2 (t1 & -> & Ht1)%list_elem_of_fmap Hk2.
      apply list_elem_of_singleton in Hk2 as ->.
      rewrite Forall_forall in Hprio. unfold trade_key at 2. simpl. fold ms.
      rewrite <-Hkey. by apply Hprio.
    + repeat constructor.
  - rewrite Hts'. apply Forall_app_2; [done|]. constructor; [|done].
    simpl. rewrite Hinc in Hprice'. done.
  - rewrite Hord', Hts', Hinc'. simpl. case_decide.
    + exists (ms_trades st ++ [t]). split; [|by left].
      apply Forall_app_2.
      * eapply Forall_impl; [exact Hold|]. intros t0 Ht0. simpl in *.
        by eapply store_le_None; [apply store_le_delete|].
      * constructor; [|done]. simpl. apply lookup_delete_eq.
    + exists (ms_trades st). split.
      * rewrite Forall_forall in Hold. apply Forall_forall. intros t0 Ht0.
        rewrite lookup_insert_ne; [by apply Hold|].
        intros E. apply Hfresh. apply list_elem_of_fmap. by exists t0.
      * right. split; [unfold q; lia|by exists t].
  - rewrite Hts', fmap_app. apply NoDup_app. split_and!; [done| |].
    + intros j Hj Hj'. apply list_elem_of_singleton in Hj'. simpl in Hj'.
      by subst j.
    + apply NoDup_singleton.
  - rewrite Hts'. intros [_ ?]%app_eq_nil. done.
  - intros _. rewrite Hinc'. simpl. unfold q. lia.
  - rewrite Hts', omap_app.
    assert (omap (filled_of (_orders b0) (_orders (ms_book st')))
                 (ms_trades st) = ms_filled st) as ->.
    { rewrite Hfil. apply omap_ext_Forall.
      rewrite Forall_forall in Hold. apply Forall_forall. intros t0 Ht0.
      unfold filled_of. rewrite (Hold _ Ht0).
      rewrite (store_le_None _ _ _ Hle' (Hold _ Ht0)). done. }
    unfold st', fill_step. fold qi. csimpl. unfold filled_of. simpl.
    destruct (decide (quantity m ≤ qi)%Z) as [Hc|Hc]; simpl.
    + rewrite orders_cancel_order, lookup_delete_eq.
      rewrite decide_False by (by intros [??]).
      rewrite Hm0. simpl. rewrite Z.sub_diag. do 3 f_equal.
      rewrite Em. done.
    + rewrite lookup_insert_eq.
      rewrite decide_True by eauto. simpl. by rewrite app_nil_r.
  - intros k l0 Hl0. destruct (Hfifo k l0 Hl0) as [_ Hcur].
    specialize (Hcur Hpos). rewrite Hts', filter_app, fmap_app.
    rewrite filter_cons, filter_nil.
    assert (Etk : trade_key o0 t = key) by by rewrite Hkey.
    destruct (decide (trade_key o0 t = k)) as [Hk|Hk]; rewrite Etk in Hk;
      [subst k|].
    + rewrite Hl in Hcur. simpl in Hcur. rewrite Hql in Hcur. simpl. split.
      * exists next. by rewrite Hcur, <-app_assoc.
      * rewrite Hinc'. simpl. intros Hpos'.
        assert (Hfull : (quantity m ≤ qi)%Z) by (unfold q in Hpos'; lia).
        assert (Hlev' : level_is (ms_book st') ms key next).
        { unfold st', fill_step. fold qi. rewrite decide_True by done.
          simpl. rewrite <-Hsm, Hkey, <-Hlp, <-Hsm.
          apply (cancel_head_level_is _ _ _ l m); [done..| |done].
          rewrite Hsm. by rewrite Hlp, <-Hkey. }
        rewrite Hcur, <-app_assoc. f_equal. simpl. f_equal.
        fold ms. unfold level_is in Hlev'. destruct next as [|j next'].
        -- by rewrite Hlev'.
        -- destruct Hlev' as (l' & -> & Hq'). done.
    + simpl. rewrite app_nil_r. split.
      * exists (from_option queue [] (book_side ms (ms_book st) !! k)).
        done.
      * intros _. rewrite Hcur. f_equal. fold ms. unfold st'.
        rewrite (fill_step_other_key ms key lp i m next st k Hpre); [done|].
        congruence.
  - intros k l0 Hl0. destruct (Hqueue k l0 Hl0) as (pre & Hpre0 & Habs).
    fold ms in Hpre0 |- *.
    assert (Habs' : Forall (λ j, _orders (ms_book st') !! j = None) pre).
    { eapply Forall_impl; [exact Habs|]. intros j Hj. simpl in *.
      by eapply store_le_None. }
    destruct (decide (k = key)) as [->|Hk].
    2:{ exists pre. split; [|done]. unfold st'.
        by rewrite (fill_step_other_key ms key lp i m next st k Hpre). }
    rewrite Hl in Hpre0. simpl in Hpre0. rewrite Hql in Hpre0.
    destruct (decide (quantity m ≤ qi)%Z) as [Hfull|Hpart].
    + assert (Hlev' : level_is (ms_book st') ms key next).
      { unfold st', fill_step. fold qi. rewrite decide_True by done.
        simpl. rewrite <-Hsm, Hkey, <-Hlp, <-Hsm.
        apply (cancel_head_level_is _ _ _ l m); [done..| |done].
        rewrite Hsm. by rewrite Hlp, <-Hkey. }
      exists (pre ++ [i]). split.
      * rewrite Hpre0, <-app_assoc. f_equal. simpl. f_equal.
        unfold level_is in Hlev'. destruct next as [|j next'].
        -- by rewrite Hlev'.
        -- destruct Hlev' as (l' & -> & Hq'). done.
      * apply Forall_app_2; [done|]. constructor; [|done].
        rewrite Hord'. apply lookup_delete_eq.
    + exists pre. split; [|done]. rewrite Hpre0. f_equal.
      unfold st', fill_step. fold qi. rewrite decide_False by done.
      cbn [ms_book]. unfold fill_maker.
      rewrite book_side_set_orders, book_side_set_same, lookup_alter_eq, Hl.
      simpl. by rewrite Hql.
Qed.

Lemma price_condition_Err b o e :
  price_condition b o = Err e →
  e = TypeError ∧ order_type o = LIMIT ∧ price o = None.
Proof.
  unfold price_condition, is_matchable. case_decide as Ht; [|done].
  destruct (match side o with BUY => _ | SELL => _ end); [|done].
  case_decide; [done|]. destruct (price o); [done|]. by intros [= <-].
Qed.

(** [add_order] of an order with a price and a fresh id. *)
Lemma add_order_Some b o p :
  book_wf b → _orders b !! order_id o = None → price o = Some p →
  ∃ b', add_order b o = Ok b'
    ∧ _orders b' = <[order_id o := set_parent_limit o (Some p)]> (_orders b)
    ∧ book_side (opposite (side o)) b' = book_side (opposite (side o)) b
    ∧ dom (book_side (side o) b')
      = {[book_key (side o) p]} ∪ dom (book_side (side o) b)
    ∧ ∀ k, k ≠ book_key (side o) p →
           book_side (side o) b' !! k = book_side (side o) b !! k.
Proof.
  intros Hwf Hfresh Hp. unfold add_order.
  rewrite decide_False by (rewrite Hfresh; by intros [??]).
  rewrite Hp. simpl. eexists. split; [done|].
  rewrite orders_set_orders, !book_side_set_orders.
  rewrite book_side_set_same, book_side_set_other by apply opposite_ne.
  split_and!; [|done|by rewrite dom_insert_L
               |by intros k Hk; rewrite lookup_insert_ne].
  do 3 f_equal.
  destruct (book_side (side o) b !! book_key (side o) p) as [l|] eqn:Hl;
    [|done].
  simpl. destruct (bw_levels _ Hwf _ _ _ Hl) as [Hk _ _ _ _ _].
  by apply (book_key_inj (side o)).
Qed.

(** [match_order] on a well-formed book, for an order with a fresh id:
    either the order is a LIMIT order without a price, for which it raises
    TypeError and leaves the book as it was, or it returns, the loops having
    kept [trace_inv], and what is left of a LIMIT order has been added. *)
Lemma match_order_trace n b o :
  book_wf b → ids_bounded n b → (n < order_id o)%Z →
  (order_type o = LIMIT ∧ price o = None
   ∧ match_order b o = Raised TypeError b)
  ∨ ∃ st b',
      match_order b o = Returned (ms_trades st, ms_filled st) b'
      ∧ trace_inv b o st ∧ book_wf (ms_book st) ∧ ids_bounded n (ms_book st)
      ∧ ((quantity (ms_incoming st) ≤ 0)%Z
         ∨ price_condition (ms_book st) (ms_incoming st) = Ok false)
      ∧ if decide ((0 < quantity (ms_incoming st))%Z ∧ order_type o = LIMIT)
        then ∃ p, price o = Some p
             ∧ add_order (ms_book st) (ms_incoming st) = Ok b'
             ∧ _orders b'
               = <[order_id o := set_parent_limit (ms_incoming st) (Some p)]>
                   (_orders (ms_book st))
             ∧ book_side (opposite (side o)) b'
               = book_side (opposite (side o)) (ms_book st)
             ∧ dom (book_side (side o) b')
               = {[book_key (side o) p]}
                 ∪ dom (book_side (side o) (ms_book st))
             ∧ ∀ k, k ≠ book_key (side o) p →
                    book_side (side o) b' !! k
                    = book_side (side o) (ms_book st) !! k
        else b' = ms_book st.
Proof.
  intros Hwf Hb Hn. unfold match_order.
  destruct (price_condition b o) as [cond|e] eqn:Hcond.
  2:{ left. by destruct (price_condition_Err _ _ _ Hcond) as (-> & ? & ?). }
  destruct (match_loop_inv o (trace_inv b o) (trace_inv_step b o) n
              (S (size (book_to_match b o))) cond (mkMatchState b o [] []))
    as (st & -> & Hinv & Hwf' & Hb' & [q' Hq'] & Hexit); simpl; try done.
  { exists (quantity o). by destruct o. }
  { left. lia. }
  { apply trace_inv_init. }
  assert (Hfresh : _orders (ms_book st) !! order_id o = None).
  { apply eq_None_not_Some. intros Hj%Hb'. lia. }
  rewrite Hq'. cbn [order_type set_quantity]. rewrite <-Hq'.
  case_bool_decide as Hq; simpl.
  2:{ right. exists st, (ms_book st). split_and!; [done..|].
      rewrite decide_False by (intros [? _]; lia). done. }
  case_bool_decide as Ht; simpl.
  2:{ right. exists st, (ms_book st). split_and!; [done..|].
      rewrite decide_False by (by intros [_ ?]). done. }
  destruct (price o) as [p|] eqn:Hp.
  - destruct (add_order_Some (ms_book st) (ms_incoming st) p)
      as (b' & Hadd & Ho' & Hopp & Hdom & Hkeys); [done|by rewrite Hq'..|].
    rewrite Hadd. right. exists st, b'. split_and!; [done..|].
    rewrite decide_True by done. exists p.
    assert (order_id (ms_incoming st) = order_id o) as Ei by by rewrite Hq'.
    assert (side (ms_incoming st) = side o) as Es by by rewrite Hq'.
    rewrite Ei in Ho'. rewrite Es in Hopp, Hdom, Hkeys. done.
  - left. split_and!; [done..|].
    assert (ms_trades st = []) as Hnil.
    { destruct (ti_price _ _ _ Hinv) as [|t ts Ht0 _]; [done|].
      destruct (Ht0 Ht) as (? & ? & _). congruence. }
    rewrite (ti_idle _ _ _ Hinv Hnil). simpl.
    unfold add_order. case_decide; [|by rewrite Hp].
    rewrite (ti_idle _ _ _ Hinv Hnil) in Hfresh. simpl in Hfresh.
    rewrite Hfresh in *. by destruct select (is_Some None).
Qed.
End trace.

(** ** What a submission does to the book *)

Section submission.
Implicit Types (ex : Exchange) (b : OrderBook) (s : OrderSide) (o m : Order)
  (i j n q : Z) (st : MatchState) (ts : float) (trades : list Trade).

Lemma submit_order_accepted ex t ts a s q ot p tp reason trades ex' :
  submit_order ex t ts a s q ot p tp = Returned (true, reason, trades) ex' →
  ∃ filled,
    match_order (order_book ex)
      (Order_init (_order_id_counter ex + 1) a s q ot ts p tp)
    = Returned (trades, filled) (order_book ex').
Proof.
  unfold submit_order.
  destruct (validate_order _ _ _) as [[] r]; simpl; [|done].
  destruct (match_order _ _) as [[tr fl] b|e b|]; [|done..].
  destruct (last tr).
  - destruct (post_trade_check _ _ _); [|done].
    intros [= _ <- <-]. simpl. by eauto.
  - intros [= _ <- <-]. simpl. by eauto.
Qed.

Lemma match_order_returned n b o trades filled b' :
  book_wf b → ids_bounded n b → (n < order_id o)%Z →
  match_order b o = Returned (trades, filled) b' →
  ∃ st, ms_trades st = trades ∧ ms_filled st = filled
    ∧ trace_inv b o st ∧ book_wf (ms_book st) ∧ ids_bounded n (ms_book st)
    ∧ ((quantity (ms_incoming st) ≤ 0)%Z
       ∨ price_condition (ms_book st) (ms_incoming st) = Ok false)
    ∧ if decide ((0 < quantity (ms_incoming st))%Z ∧ order_type o = LIMIT)
      then ∃ p, price o = Some p
           ∧ add_order (ms_book st) (ms_incoming st) = Ok b'
           ∧ _orders b'
             = <[order_id o := set_parent_limit (ms_incoming st) (Some p)]>
                 (_orders (ms_book st))
           ∧ book_side (opposite (side o)) b'
             = book_side (opposite (side o)) (ms_book st)
           ∧ dom (book_side (side o) b')
             = {[book_key (side o) p]}
               ∪ dom (book_side (side o) (ms_book st))
           ∧ ∀ k, k ≠ book_key (side o) p →
                  book_side (side o) b' !! k
                  = book_side (side o) (ms_book st) !! k
      else b' = ms_book st.
Proof.
  intros Hwf Hb Hn Hm.
  destruct (match_order_trace n b o Hwf Hb Hn)
    as [(_ & _ & Hr)|(st & b'' & Hr & H)]; rewrite Hm in Hr; [done|].
  injection Hr as Ht Hf Hb''. subst trades filled b''.
  destruct H as (?&?&?&?&?). exists st. by split_and!.
Qed.

Lemma submit_order_matched ex t ts a s q ot p tp reason trades ex' :
  reachable ex →
  submit_order ex t ts a s q ot p tp = Returned (true, reason, trades) ex' →
  ∃ st, ms_trades st = trades
    ∧ trace_inv (order_book ex)
        (Order_init (_order_id_counter ex + 1) a s q ot ts p tp) st
    ∧ book_wf (ms_book st)
    ∧ ids_bounded (_order_id_counter ex) (ms_book st)
    ∧ ((quantity (ms_incoming st) ≤ 0)%Z
       ∨ price_condition (ms_book st) (ms_incoming st) = Ok false)
    ∧ if decide ((0 < quantity (ms_incoming st))%Z ∧ ot = LIMIT)
      then ∃ lim, p = Some lim
           ∧ _orders (order_book ex')
             = <[(_order_id_counter ex + 1)%Z :=
                   set_parent_limit (ms_incoming st) (Some lim)]>
                 (_orders (ms_book st))
           ∧ book_side (opposite s) (order_book ex')
             = book_side (opposite s) (ms_book st)
           ∧ dom (book_side s (order_book ex'))
             = {[book_key s lim]} ∪ dom (book_side s (ms_book st))
           ∧ ∀ k, k ≠ book_key s lim →
                  book_side s (order_book ex') !! k
                  = book_side s (ms_book st) !! k
      else order_book ex' = ms_book st.
Proof.
  intros [Hwf Hb]%reachable_wf [filled Hm]%submit_order_accepted.
  edestruct (match_order_returned (_order_id_counter ex))
    as (st & Ht & _ & Hinv & Hwf' & Hb' & Hexit & Hrest);
    [exact Hwf|exact Hb| |exact Hm|]; [simpl; lia|].
  exists st. split_and!; [done..|]. simpl in Hrest.
  case_decide; [|done].
  destruct Hrest as (lim & ? & _ & ? & ? & ? & ?). by exists lim.
Qed.
End submission.

(** ** The scenarios as submissions *)

Lemma scenario_S4_reachable : reachable scenario_S4.
Proof.
  apply reachable_run_submit.
  eapply reachable_step; [exact scenario_S2_reachable|apply step_cancel].
Qed.

Lemma scenario_S2_submission :
  submit_order scenario_S1 ten_am (px 0) 5 BUY 10 MARKET None None
  = Returned (true, order_accepted, trades_S2) scenario_S2.
Proof. vm_compute. reflexivity. Qed.

Lemma scenario_S5_submission :
  submit_order scenario_S4 ten_am (px 0) 7 BUY 15 LIMIT (Some (px 102)) None
  = Returned (true, order_accepted, trades_S5) scenario_S5.
Proof. vm_compute. reflexivity. Qed.

(** ** Accepted submissions *)

(** X1: An accepted order trades in positive quantities and never more than its
    own quantity. What is left of a LIMIT order rests under the order's id,
    and nothing rests of an order of another type. *)
Theorem submission_conserves_quantity
    ex t ts a s q ot p tp reason trades ex' :
  reachable ex →
  submit_order ex t ts a s q ot p tp = Returned (true, reason, trades) ex' →
  Forall (λ tr, (0 < trade_quantity tr)%Z) trades
  ∧ (trades ≠ [] → (sum_trades trades ≤ q)%Z)
  ∧ resting_quantity (_orders (order_book ex')) (_order_id_counter ex + 1)
    = if decide (ot = LIMIT) then Z.max 0 (q - sum_trades trades) else 0%Z.
Proof.
  intros Hr Hs.
  destruct (submit_order_matched _ _ _ _ _ _ _ _ _ _ _ _ Hr Hs)
    as (st & <- & Hinv & Hwf & Hb & Hexit & Hrest).
  pose proof (ti_incoming _ _ _ Hinv) as Hinc. simpl in Hinc.
  assert (Hqi : quantity (ms_incoming st) = (q - sum_trades (ms_trades st))%Z)
    by by rewrite Hinc.
  split_and!.
  - eapply Forall_impl; [apply (ti_trades _ _ _ Hinv)|].
    by intros tr (_ & _ & ? & _).
  - intros Hne. pose proof (ti_nonneg _ _ _ Hinv Hne). lia.
  - assert (Hfresh : _orders (ms_book st) !! (_order_id_counter ex + 1)%Z
                     = None).
    { apply eq_None_not_Some. intros Hj%Hb. lia. }
    unfold resting_quantity. case_decide as Hc.
    + destruct Hrest as (lim & _ & -> & _). rewrite lookup_insert_eq.
      simpl. rewrite decide_True by tauto. lia.
    + rewrite Hrest, Hfresh. simpl. case_decide; [|done].
      assert (¬ (0 < quantity (ms_incoming st))%Z) by tauto. lia.
Qed.

Lemma submission_conserves_quantity_witness :
  Forall (λ tr, (0 < trade_quantity tr)%Z) trades_S5
  ∧ (trades_S5 ≠ [] → (sum_trades trades_S5 ≤ 15)%Z)
  ∧ resting_quantity (_orders (order_book scenario_S5))
      (_order_id_counter scenario_S4 + 1)
    = if decide (LIMIT = LIMIT) then Z.max 0 (15 - sum_trades trades_S5)
      else 0%Z.
Proof.
  apply (submission_conserves_quantity scenario_S4 ten_am (px 0) 7 BUY 15
           LIMIT (Some (px 102)) None order_accepted trades_S5 scenario_S5).
  - exact scenario_S4_reachable.
  - exact scenario_S5_submission.
Defined.

(** X2: No resting order takes part in two trades of one submission, and every
    resting order keeps what it had less what was traded against it. *)
Theorem makers_lose_what_is_traded ex t ts a s q ot p tp reason trades ex' :
  reachable ex →
  submit_order ex t ts a s q ot p tp = Returned (true, reason, trades) ex' →
  NoDup (maker_order_id <$> trades)
  ∧ ∀ j, j ≠ (_order_id_counter ex + 1)%Z →
      resting_quantity (_orders (order_book ex')) j
      = (resting_quantity (_orders (order_book ex)) j - traded j trades)%Z.
Proof.
  intros Hr Hs.
  destruct (submit_order_matched _ _ _ _ _ _ _ _ _ _ _ _ Hr Hs)
    as (st & <- & Hinv & Hwf & Hb & Hexit & Hrest).
  split; [apply (ti_makers _ _ _ Hinv)|]. intros j Hj.
  rewrite <-(ti_quantity _ _ _ Hinv). unfold resting_quantity.
  case_decide.
  - destruct Hrest as (lim & _ & -> & _). by rewrite lookup_insert_ne.
  - by rewrite Hrest.
Qed.

Lemma makers_lose_what_is_traded_witness :
  NoDup (maker_order_id <$> trades_S2)
  ∧ ∀ j, j ≠ (_order_id_counter scenario_S1 + 1)%Z →
      resting_quantity (_orders (order_book scenario_S2)) j
      = (resting_quantity (_orders (order_book scenario_S1)) j
         - traded j trades_S2)%Z.
Proof.
  apply (makers_lose_what_is_traded scenario_S1 ten_am (px 0) 5 BUY 10
           MARKET None None order_accepted trades_S2 scenario_S2).
  - exact scenario_S1_reachable.
  - exact scenario_S2_submission.
Defined.

(** X3: Every trade of an accepted order bears the order's id and timestamp, and
    is made against an order that was resting on the opposite side, at the
    price of the level that order was queued in, for no more than that order
    had. *)
Theorem trades_are_against_resting_orders
    ex t ts a s q ot p tp reason trades ex' :
  reachable ex →
  submit_order ex t ts a s q ot p tp = Returned (true, reason, trades) ex' →
  Forall (λ tr,
    taker_order_id tr = (_order_id_counter ex + 1)%Z
    ∧ trade_timestamp tr = ts
    ∧ ∃ m, _orders (order_book ex) !! maker_order_id tr = Some m
           ∧ side m = opposite s
           ∧ parent_limit m = Some (trade_price tr)
           ∧ (0 < trade_quantity tr ≤ quantity m)%Z) trades.
Proof.
  intros Hr Hs.
  destruct (submit_order_matched _ _ _ _ _ _ _ _ _ _ _ _ Hr Hs)
    as (st & <- & Hinv & _).
  eapply Forall_impl; [apply (ti_trades _ _ _ Hinv)|].
  intros tr (? & ? & ? & m & ? & ? & ? & ?). split_and!; [done..|].
  exists m. by split_and!.
Qed.

Lemma trades_are_against_resting_orders_witness :
  Forall (λ tr,
    taker_order_id tr = (_order_id_counter scenario_S1 + 1)%Z
    ∧ trade_timestamp tr = px 0
    ∧ ∃ m, _orders (order_book scenario_S1) !! maker_order_id tr = Some m
           ∧ side m = opposite BUY
           ∧ parent_limit m = Some (trade_price tr)
           ∧ (0 < trade_quantity tr ≤ quantity m)%Z) trades_S2.
Proof.
  apply (trades_are_against_resting_orders scenario_S1 ten_am (px 0) 5 BUY 10
           MARKET None None order_accepted trades_S2 scenario_S2).
  - exact scenario_S1_reachable.
  - exact scenario_S2_submission.
Defined.

(** X4: A LIMIT order never trades at a price worse than its own: a BUY at no
    more, a SELL at no less. A LIMIT order without a price does not trade. *)
Theorem limit_order_price_protection ex t ts a s q p tp reason trades ex' :
  reachable ex →
  submit_order ex t ts a s q LIMIT p tp
  = Returned (true, reason, trades) ex' →
  match p with
  | Some lim => Forall (λ tr, within_limit s lim (trade_price tr)) trades
  | None => trades = []
  end.
Proof.
  intros Hr Hs.
  destruct (submit_order_matched _ _ _ _ _ _ _ _ _ _ _ _ Hr Hs)
    as (st & <- & Hinv & _).
  pose proof (ti_price _ _ _ Hinv) as Hp. unfold limit_ok in Hp. simpl in Hp.
  destruct p as [lim|].
  - eapply Forall_impl; [exact Hp|]. intros tr Htr.
    destruct (Htr eq_refl) as (lim' & [= <-] & ?). done.
  - destruct Hp as [|tr trs Htr _]; [done|].
    by destruct (Htr eq_refl) as (? & ? & _).
Qed.

Lemma limit_order_price_protection_witness :
  Forall (λ tr, within_limit BUY (px 102) (trade_price tr)) trades_S5.
Proof.
  apply (limit_order_price_protection scenario_S4 ten_am (px 0) 7 BUY 15
           (Some (px 102)) None order_accepted trades_S5 scenario_S5).
  - exact scenario_S4_reachable.
  - exact scenario_S5_submission.
Defined.

(** X5: The trades of an order are made best price first: along the list the
    key of the level traded at (the price for asks, the negated price for
    bids) never decreases. *)
Theorem trades_best_price_first ex t ts a s q ot p tp reason trades ex' :
  reachable ex →
  submit_order ex t ts a s q ot p tp = Returned (true, reason, trades) ex' →
  StronglySorted Qcle
    ((λ tr, book_key (opposite s) (trade_price tr)) <$> trades).
Proof.
  intros Hr Hs.
  destruct (submit_order_matched _ _ _ _ _ _ _ _ _ _ _ _ Hr Hs)
    as (st & <- & Hinv & _).
  exact (ti_sorted _ _ _ Hinv).
Qed.

Lemma trades_best_price_first_witness :
  StronglySorted Qcle
    ((λ tr, book_key (opposite BUY) (trade_price tr)) <$> trades_S2).
Proof.
  apply (trades_best_price_first scenario_S1 ten_am (px 0) 5 BUY 10
           MARKET None None order_accepted trades_S2 scenario_S2).
  - exact scenario_S1_reachable.
  - exact scenario_S2_submission.
Defined.

(** X6: No trade is made past resting liquidity: every level that is left on
    the opposite side after the submission has a key no less than that of
    any of the trades. *)
Theorem no_trade_through ex t ts a s q ot p tp reason trades ex' :
  reachable ex →
  submit_order ex t ts a s q ot p tp = Returned (true, reason, trades) ex' →
  Forall (λ tr, ∀ k, k ∈ dom (book_side (opposite s) (order_book ex')) →
                     (book_key (opposite s) (trade_price tr) ≤ k)%Qc) trades.
Proof.
  intros Hr Hs.
  destruct (submit_order_matched _ _ _ _ _ _ _ _ _ _ _ _ Hr Hs)
    as (st & <- & Hinv & _ & _ & _ & Hrest).
  assert (book_side (opposite s) (order_book ex')
          = book_side (opposite s) (ms_book st)) as ->.
  { case_decide; [|by rewrite Hrest].
    by destruct Hrest as (lim & _ & _ & -> & _). }
  exact (ti_priority _ _ _ Hinv).
Qed.

Lemma no_trade_through_witness :
  Forall (λ tr, ∀ k, k ∈ dom (book_side (opposite BUY) (order_book scenario_S2))
                     → (book_key (opposite BUY) (trade_price tr) ≤ k)%Qc)
         trades_S2.
Proof.
  apply (no_trade_through scenario_S1 ten_am (px 0) 5 BUY 10
           MARKET None None order_accepted trades_S2 scenario_S2).
  - exact scenario_S1_reachable.
  - exact scenario_S2_submission.
Defined.

(** X7: Every trade but the last exhausts the order it is made against, which
    leaves the book; the last one leaves its maker in the book only when it
    exhausts the incoming order. *)
Theorem only_last_trade_is_partial
    ex t ts a s q ot p tp reason trades ex' :
  reachable ex →
  submit_order ex t ts a s q ot p tp = Returned (true, reason, trades) ex' →
  ∀ trs tr, trades = trs ++ [tr] →
    Forall (λ tr', _orders (order_book ex') !! maker_order_id tr' = None) trs
    ∧ (is_Some (_orders (order_book ex') !! maker_order_id tr) →
       sum_trades trades = q).
Proof.
  intros Hr Hs trs tr Htrs.
  destruct (submit_order_matched _ _ _ _ _ _ _ _ _ _ _ _ Hr Hs)
    as (st & Ht & Hinv & Hwf & Hb & Hexit & Hrest).
  destruct (reachable_wf _ Hr) as [_ Hb0].
  pose proof (ti_incoming _ _ _ Hinv) as Hinc. simpl in Hinc.
  assert (Hqi : quantity (ms_incoming st) = (q - sum_trades (ms_trades st))%Z)
    by by rewrite Hinc.
  assert (Hsame : ∀ tr', tr' ∈ trades →
            _orders (order_book ex') !! maker_order_id tr'
            = _orders (ms_book st) !! maker_order_id tr').
  { intros tr' Htr'. case_decide; [|by rewrite Hrest].
    destruct Hrest as (lim & _ & -> & _). apply lookup_insert_ne.
    pose proof (ti_trades _ _ _ Hinv) as Hok. rewrite Ht in Hok.
    rewrite Forall_forall in Hok.
    destruct (Hok _ Htr') as (_ & _ & _ & m & Hm & _).
    assert (maker_order_id tr' ≤ _order_id_counter ex)%Z by (apply Hb0; eauto).
    lia. }
  assert (Hne : ms_trades st ≠ []).
  { rewrite Ht, Htrs. by intros [_ ?]%app_eq_nil. }
  pose proof (ti_nonneg _ _ _ Hinv Hne) as Hnn.
  destruct (ti_last _ _ _ Hinv) as (trs' & Habs & Hcase).
  rewrite Ht in Hcase.
  assert (Habs' : Forall (λ tr', tr' ∈ trades →
             _orders (order_book ex') !! maker_order_id tr' = None) trs').
  { eapply Forall_impl; [exact Habs|]. intros tr' Htr' Hin.
    by rewrite Hsame. }
  rewrite Forall_forall in Habs'.
  destruct Hcase as [<-|(Hq & tr0 & Htr0)].
  - split.
    + apply Forall_forall. intros tr' Htr'.
      assert (tr' ∈ trades) by (rewrite Htrs; apply elem_of_app; by left).
      by apply Habs'.
    + assert (tr ∈ trades)
        by (rewrite Htrs; apply elem_of_app; right; by left).
      rewrite (Habs' tr) by done. by intros [??].
  - rewrite Htrs in Htr0. apply app_inj_tail in Htr0 as [<- <-].
    split.
    + apply Forall_forall. intros tr' Htr'.
      assert (tr' ∈ trades) by (rewrite Htrs; apply elem_of_app; by left).
      by apply Habs'.
    + intros _. rewrite <-Ht. lia.
Qed.

Lemma only_last_trade_is_partial_witness :
  Forall (λ tr', _orders (order_book scenario_S2) !! maker_order_id tr'
                 = None) [mkTrade 3 5 (px 101) 8 (px 0)]
  ∧ (is_Some (_orders (order_book scenario_S2)
              !! maker_order_id (mkTrade 4 5 (px 102) 2 (px 0))) →
     sum_trades trades_S2 = 10%Z).
Proof.
  apply (only_last_trade_is_partial scenario_S1 ten_am (px 0) 5 BUY 10
           MARKET None None order_accepted trades_S2 scenario_S2).
  - exact scenario_S1_reachable.
  - exact scenario_S2_submission.
  - reflexivity.
Defined.

(** X8: [filled_maker_orders] lists, in the order of the trades, the makers
    that the trades have exhausted: each as it was in the book, with
    quantity 0 and no parent level, and none of them any longer in the
    book. *)
Theorem filled_makers_are_the_exhausted_ones n b o trades filled b' :
  book_wf b → ids_bounded n b → (n < order_id o)%Z →
  match_order b o = Returned (trades, filled) b' →
  filled = omap (filled_of (_orders b) (_orders b')) trades
  ∧ Forall (λ f, quantity f = 0%Z ∧ parent_limit f = None
                 ∧ _orders b' !! order_id f = None) filled.
Proof.
  intros Hwf Hb Hn Hm.
  destruct (match_order_returned _ _ _ _ _ _ Hwf Hb Hn Hm)
    as (st & Ht & Hf & Hinv & Hwf' & Hb' & Hexit & Hrest).
  assert (Hsame : ∀ j, (j ≤ n)%Z → _orders b' !! j = _orders (ms_book st) !! j).
  { intros j Hj. case_decide; [|by rewrite Hrest].
    destruct Hrest as (lim & _ & _ & -> & _). apply lookup_insert_ne. lia. }
  pose proof (ti_trades _ _ _ Hinv) as Hok. rewrite Ht in Hok.
  assert (Heq : filled = omap (filled_of (_orders b) (_orders b')) trades).
  { rewrite <-Hf, (ti_filled _ _ _ Hinv), Ht. apply omap_ext_Forall.
    eapply Forall_impl; [exact Hok|].
    intros tr (_ & _ & _ & m & Hm0 & _). unfold filled_of.
    rewrite Hsame; [done|]. apply Hb. eauto. }
  split; [done|]. rewrite Heq. clear -Hwf.
  induction trades as [|tr trs IH]; [done|].
  csimpl. unfold filled_of at 1. case_decide as Hc; [done|].
  destruct (_orders b !! maker_order_id tr) as [m|] eqn:Hm0; [|done].
  simpl. constructor; [|done]. simpl.
  destruct (bw_orders _ Hwf _ _ Hm0) as (-> & _).
  split_and!; [done..|]. by apply eq_None_not_Some.
Qed.

Lemma filled_makers_are_the_exhausted_ones_witness :
  filled_S2
  = omap (filled_of (_orders (order_book scenario_S1))
                    (_orders (order_book scenario_S2))) trades_S2
  ∧ Forall (λ f, quantity f = 0%Z ∧ parent_limit f = None
                 ∧ _orders (order_book scenario_S2) !! order_id f = None)
           filled_S2.
Proof.
  apply (filled_makers_are_the_exhausted_ones
           (_order_id_counter scenario_S1) (order_book scenario_S1) order_S2
           trades_S2 filled_S2 (order_book scenario_S2)).
  - exact (proj1 (reachable_wf _ scenario_S1_reachable)).
  - exact (proj2 (reachable_wf _ scenario_S1_reachable)).
  - vm_compute. reflexivity.
  - vm_compute. reflexivity.
Defined.

(** X9: An accepted order adds no level to the opposite side and leaves the
    levels of its own side as they are, but for the level at its own price
    when it is a LIMIT order. *)
Theorem submission_frame ex t ts a s q ot p tp reason trades ex' :
  reachable ex →
  submit_order ex t ts a s q ot p tp = Returned (true, reason, trades) ex' →
  dom (book_side (opposite s) (order_book ex'))
  ⊆ dom (book_side (opposite s) (order_book ex))
  ∧ (ot ≠ LIMIT →
     book_side s (order_book ex') = book_side s (order_book ex))
  ∧ ∀ k, (∀ lim, p = Some lim → k ≠ book_key s lim) →
      book_side s (order_book ex') !! k = book_side s (order_book ex) !! k.
Proof.
  intros Hr Hs.
  destruct (submit_order_matched _ _ _ _ _ _ _ _ _ _ _ _ Hr Hs)
    as (st & Ht & Hinv & Hwf & Hb & Hexit & Hrest).
  pose proof (ti_own_side _ _ _ Hinv) as Hown.
  pose proof (ti_levels _ _ _ Hinv) as Hlev. simpl in Hown, Hlev.
  case_decide as Hc.
  - destruct Hrest as (lim & -> & _ & Hopp & _ & Hkeys).
    split_and!.
    + by rewrite Hopp.
    + intros Hot. by destruct Hc.
    + intros k Hk. rewrite Hkeys by by apply Hk. by rewrite Hown.
  - rewrite Hrest. split_and!; [done|done|]. intros k _. by rewrite Hown.
Qed.

Lemma submission_frame_witness :
  dom (book_side (opposite BUY) (order_book scenario_S5))
  ⊆ dom (book_side (opposite BUY) (order_book scenario_S4))
  ∧ (LIMIT ≠ LIMIT →
     book_side BUY (order_book scenario_S5)
     = book_side BUY (order_book scenario_S4))
  ∧ ∀ k, (∀ lim, Some (px 102) = Some lim → k ≠ book_key BUY lim) →
      book_side BUY (order_book scenario_S5) !! k
      = book_side BUY (order_book scenario_S4) !! k.
Proof.
  apply (submission_frame scenario_S4 ten_am (px 0) 7 BUY 15
           LIMIT (Some (px 102)) None order_accepted trades_S5 scenario_S5).
  - exact scenario_S4_reachable.
  - exact scenario_S5_submission.
Defined.

(** ** Submissions that raise *)






(** X12: Time priority: the orders of a level are traded against in the order
    of the level's queue, from its head. The makers of the trades made at a
    level are a prefix of the queue the level had before the submission. *)
Theorem trades_in_queue_order ex t ts a s q ot p tp reason trades ex' :
  reachable ex →
  submit_order ex t ts a s q ot p tp = Returned (true, reason, trades) ex' →
  ∀ k l, book_side (opposite s) (order_book ex) !! k = Some l →
    (maker_order_id
     <$> filter (λ tr, book_key (opposite s) (trade_price tr) = k) trades)
    `prefix_of` queue l.
Proof.
  intros Hr Hs k l Hl.
  destruct (submit_order_matched _ _ _ _ _ _ _ _ _ _ _ _ Hr Hs)
    as (st & <- & Hinv & _).
  by destruct (ti_fifo _ _ _ Hinv k l Hl) as [? _].
Qed.

Lemma trades_in_queue_order_witness :
  (maker_order_id
   <$> filter (λ tr, book_key (opposite BUY) (trade_price tr) = px 102)
              trades_S2)
  `prefix_of` queue (mkLimit (px 102) 12 1 [4%Z]).
Proof.
  apply (trades_in_queue_order scenario_S1 ten_am (px 0) 5 BUY 10
           MARKET None None order_accepted trades_S2 scenario_S2).
  - exact scenario_S1_reachable.
  - exact scenario_S2_submission.
  - vm_compute. reflexivity.
Defined.

(** ** The order book on its own *)

Section book.
Implicit Types (b : OrderBook) (s : OrderSide) (l : Limit) (o : Order)
  (i j : Z).

Lemma unlink_app_fresh (q : list Z) i : i ∉ q → unlink i (q ++ [i]) = q.
Proof.
  induction q as [|j q IH]; simpl.
  - intros _. by rewrite decide_True.
  - rewrite not_elem_of_cons. intros [Hne Hi].
    rewrite decide_False by done. by rewrite IH.
Qed.

Lemma set_book_side_id s b : set_book_side s (book_side s b) b = b.
Proof. by destruct s, b. Qed.

Lemma set_orders_id b : set_orders (_orders b) b = b.
Proof. by destruct b. Qed.

Lemma set_book_side_twice s d d' b :
  set_book_side s d (set_book_side s d' b) = set_book_side s d b.
Proof. by destruct s. Qed.

Lemma set_orders_set_book_side s d d' (m m' : gmap Z Order) b :
  set_book_side s d (set_orders m (set_orders m' (set_book_side s d' b)))
  = set_orders m (set_book_side s d b).
Proof. by destruct s. Qed.
End book.

Lemma add_order_cancel_order b o :
  book_wf b → _orders b !! order_id o = None → is_Some (price o) →
  ∃ b', add_order b o = Ok b'
    ∧ get_order b' (order_id o) = Some (set_parent_limit o (price o))
    ∧ cancel_order b' (order_id o) = (Some (set_parent_limit o None), b).
Proof.
  intros Hwf Hfresh [p Hp]. unfold add_order.
  rewrite decide_False by (rewrite Hfresh; by intros [??]).
  rewrite Hp. simpl. eexists. split; [done|].
  set (s := side o). set (key := book_key s p). set (d := book_side s b).
  set (l0 := default (Limit_init p) (d !! key)).
  assert (Hlp : limit_price l0 = p).
  { unfold l0. destruct (d !! key) as [l|] eqn:Hl; [|done]. simpl.
    destruct (bw_levels _ Hwf _ _ _ Hl) as [Hk _ _ _ _ _].
    symmetry. by apply (book_key_inj s). }
  assert (Hnotin : order_id o ∉ queue l0).
  { unfold l0. destruct (d !! key) as [l|] eqn:Hl; simpl; [|by inversion 1].
    intros Hi. destruct (bw_levels _ Hwf _ _ _ Hl) as [_ _ _ Hos _ _].
    destruct (Hos _ Hi) as (o' & Ho' & _). congruence. }
  split.
  { unfold get_order. rewrite orders_set_orders, lookup_insert_eq.
    by rewrite Hlp. }
  unfold cancel_order. rewrite orders_set_orders, lookup_insert_eq.
  cbn [parent_limit set_parent_limit side]. fold s. rewrite Hlp. fold key.
  rewrite book_side_set_orders, book_side_set_orders, book_side_set_same.
  rewrite lookup_insert_eq. unfold Limit_remove_order.
  cbn [order_count order_id set_parent_limit queue total_volume limit_price
       quantity fst snd].
  rewrite unlink_app_fresh by done.
  rewrite (delete_insert_id (_orders b)) by done.
  f_equal.
  rewrite set_orders_set_book_side.
  replace (order_count l0 + 1 - 1)%Z with (order_count l0) by lia.
  replace (total_volume l0 + quantity o - quantity o)%Z
    with (total_volume l0) by lia.
  unfold l0. destruct (d !! key) as [l|] eqn:Hl; simpl.
  - destruct (bw_levels _ Hwf _ _ _ Hl) as [_ _ Hnn _ _ Hc].
    rewrite decide_False.
    2:{ rewrite Hc. destruct (queue l); [done|simpl; lia]. }
    assert (limit_price l = p) as Hlp'.
    { destruct (bw_levels _ Hwf _ _ _ Hl) as [Hk _ _ _ _ _].
      symmetry. by apply (book_key_inj s). }
    rewrite insert_insert_eq.
    replace (mkLimit p (total_volume l) (order_count l) (queue l)) with l
      by (rewrite <-Hlp'; by destruct l).
    rewrite insert_id by done. unfold d, s.
    by rewrite set_book_side_id, set_orders_id.
  - rewrite ?decide_True by done. rewrite delete_insert_id by done.
    unfold d, s. by rewrite set_book_side_id, set_orders_id.
Qed.

(** X13: Adding an order with a price and a fresh id succeeds, and cancelling
    it right away returns the order without a parent level and puts the
    book back exactly as it was. *)
Theorem add_then_cancel b o :
  book_wf b → _orders b !! order_id o = None → is_Some (price o) →
  ∃ b', add_order b o = Ok b'
    ∧ get_order b' (order_id o) = Some (set_parent_limit o (price o))
    ∧ cancel_order b' (order_id o) = (Some (set_parent_limit o None), b).
Proof. apply add_order_cancel_order. Qed.

Lemma add_then_cancel_witness :
  ∃ b', add_order (order_book scenario_S1) order_97 = Ok b'
    ∧ get_order b' (order_id order_97)
      = Some (set_parent_limit order_97 (price order_97))
    ∧ cancel_order b' (order_id order_97)
      = (Some (set_parent_limit order_97 None), order_book scenario_S1).
Proof.
  apply (add_then_cancel (order_book scenario_S1) order_97).
  - exact (proj1 (reachable_wf _ scenario_S1_reachable)).
  - vm_compute. reflexivity.
  - vm_compute. eexists. reflexivity.
Defined.

(** ** The best prices *)

Section best.
Implicit Types (b : OrderBook) (s : OrderSide) (l : Limit) (o : Order)
  (i j : Z) (d : gmap Qc Limit).

Lemma peekitem0_None d : peekitem0 d = None → d = ∅.
Proof.
  intros Hpeek. apply map_empty. intros k.
  destruct (d !! k) as [l|] eqn:Hl; [|done].
  destruct (peekitem0_is_Some d) as [kv Hkv]; [|congruence].
  intros ->. by rewrite lookup_empty in Hl.
Qed.

Lemma queue_volume_pos (m : gmap Z Order) (q : list Z) :
  q ≠ [] →
  (∀ i, i ∈ q → ∃ o, m !! i = Some o ∧ (0 < quantity o)%Z) →
  (0 < queue_volume m q)%Z.
Proof.
  assert (Hnn : ∀ q', (∀ i, i ∈ q' → ∃ o, m !! i = Some o
                                          ∧ (0 < quantity o)%Z) →
            (0 ≤ queue_volume m q')%Z).
  { induction q' as [|i q' IH]; intros Hq'; simpl; [done|].
    destruct (Hq' i) as (o & -> & ?); [by left|]. simpl.
    assert (0 ≤ queue_volume m q')%Z; [|unfold queue_volume in *; lia].
    apply IH. intros j Hj. apply Hq'. by right. }
  destruct q as [|i q]; [done|]. intros _ Hq. simpl.
  destruct (Hq i) as (o & -> & ?); [by left|]. simpl.
  assert (0 ≤ queue_volume m q)%Z; [|unfold queue_volume in *; lia].
  apply Hnn. intros j Hj. apply Hq. by right.
Qed.

(** The first item of a side of a well-formed book. *)
Lemma best_level b s :
  book_wf b →
  match peekitem0 (book_side s b) with
  | None => book_side s b = ∅
  | Some (k, l) =>
      book_side s b !! k = Some l ∧ k = book_key s (limit_price l)
      ∧ (0 < total_volume l)%Z
      ∧ ∀ k' l', book_side s b !! k' = Some l' →
                 (k ≤ book_key s (limit_price l'))%Qc
  end.
Proof.
  intros Hwf. destruct (peekitem0 _) as [[k l]|] eqn:Hpeek;
    [|by apply peekitem0_None].
  pose proof (peekitem0_lookup _ _ _ Hpeek) as Hl.
  destruct (bw_levels _ Hwf _ _ _ Hl) as [Hk _ Hnn Hos Hv _].
  split_and!; [done..| |].
  - rewrite Hv. apply queue_volume_pos; [done|]. intros i Hi.
    destruct (Hos i Hi) as (o & Ho & _). exists o. split; [done|].
    by destruct (bw_orders _ Hwf _ _ Ho) as (_ & ? & _).
  - intros k' l' Hl'. destruct (bw_levels _ Hwf _ _ _ Hl') as [<- _ _ _ _ _].
    by eapply peekitem0_least.
Qed.

Lemma Qcopp_le_inv (x y : Qc) : (- x ≤ - y)%Qc → (y ≤ x)%Qc.
Proof.
  intros H%Qcopp_le_compat. by rewrite !Qcopp_involutive in H.
Qed.
End best.

Lemma best_prices_wf b :
  book_wf b →
  match best_ask b with
  | None => asks b = ∅
  | Some pa =>
      (∃ l, asks b !! pa = Some l ∧ limit_price l = pa
            ∧ (0 < total_volume l)%Z)
      ∧ ∀ k l, asks b !! k = Some l → (pa ≤ limit_price l)%Qc
  end
  ∧ match best_bid b with
    | None => bids b = ∅
    | Some pb =>
        (∃ l, bids b !! (- pb)%Qc = Some l ∧ limit_price l = pb
              ∧ (0 < total_volume l)%Z)
        ∧ ∀ k l, bids b !! k = Some l → (limit_price l ≤ pb)%Qc
    end.
Proof.
  intros Hwf. unfold best_ask, best_bid. split.
  - pose proof (best_level _ SELL Hwf) as H. simpl in H.
    destruct (peekitem0 _) as [[k l]|]; simpl; [|done].
    destruct H as (Hl & -> & Hv & Hleast). split; [by exists l|].
    intros k' l' Hl'. by apply (Hleast k').
  - pose proof (best_level _ BUY Hwf) as H. simpl in H.
    destruct (peekitem0 _) as [[k l]|]; simpl; [|done].
    destruct H as (Hl & -> & Hv & Hleast). split; [by exists l|].
    intros k' l' Hl'. apply Qcopp_le_inv. by apply (Hleast k').
Qed.



(** ** What every reachable book satisfies *)

Section reachable_books.
Implicit Types (ex : Exchange) (b : OrderBook) (s : OrderSide) (l : Limit)
  (o : Order) (i j n : Z) (st : MatchState).

(** The book a submission leaves is the one it found or the one
    [match_order] has returned with. *)
Lemma submit_order_book ex t ts a s q ot p tp ex' :
  exchange_wf ex →
  (∃ r, submit_order ex t ts a s q ot p tp = Returned r ex')
  ∨ (∃ e, submit_order ex t ts a s q ot p tp = Raised e ex') →
  order_book ex' = order_book ex
  ∨ ∃ tf, match_order (order_book ex)
            (Order_init (_order_id_counter ex + 1) a s q ot ts p tp)
          = Returned tf (order_book ex').
Proof.
  intros [Hwf Hb]. unfold submit_order.
  destruct (validate_order _ _ _) as [[] r]; simpl.
  2:{ intros [[r' [= _ <-]]|[e [=]]]. by left. }
  destruct (match_order_trace (_order_id_counter ex) (order_book ex)
              (Order_init (_order_id_counter ex + 1) a s q ot ts p tp) Hwf Hb)
    as [(Ht & Hp & ->)|(st & b' & Hm & _)]; [simpl; lia| |].
  { intros [[r' [=]]|[e [= _ <-]]]. by left. }
  rewrite Hm. destruct (last (ms_trades st)) as [tr|].
  - destruct (post_trade_check _ _ _);
      intros [[r' [= _ <-]]|[e' [= _ <-]]]; right; by eauto.
  - intros [[r' [= _ <-]]|[e' [=]]]; right; by eauto.
Qed.

Lemma Exchange_cancel_order_book ex id :
  order_book (Exchange_cancel_order ex id).2
  = (cancel_order (order_book ex) id).2.
Proof.
  unfold Exchange_cancel_order.
  by destruct (cancel_order (order_book ex) id) as [[c|] b'].
Qed.

Lemma match_order_resting_limit n b o tf b' :
  book_wf b → ids_bounded n b → (n < order_id o)%Z → resting_limit b →
  match_order b o = Returned tf b' → resting_limit b'.
Proof.
  intros Hwf Hb Hn Hrl Hm. destruct tf as [trades filled].
  destruct (match_order_returned _ _ _ _ _ _ Hwf Hb Hn Hm)
    as (st & _ & _ & Hinv & Hwf' & Hb' & Hexit & Hrest).
  assert (Hst : resting_limit (ms_book st)).
  { intros i o' Ho'.
    destruct (ti_store _ _ _ Hinv i o' Ho') as (o0 & Ho0 & -> & _).
    exact (Hrl i o0 Ho0). }
  case_decide as Hc; [|by rewrite Hrest].
  destruct Hc as [Hq Ht]. destruct Hrest as (lim & Hp & _ & Ho' & _).
  intros i o'. rewrite Ho'.
  intros [[<- <-]|[_ Hi]]%lookup_insert_Some; [|by apply (Hst i)].
  rewrite (ti_incoming _ _ _ Hinv). simpl. by rewrite Hp.
Qed.

Lemma reachable_resting_limit ex :
  reachable ex → resting_limit (order_book ex).
Proof.
  induction 1 as [|ex ex' Hr IH Hstep].
  { intros i o. simpl. by rewrite lookup_empty. }
  pose proof (reachable_wf _ Hr) as Hwf.
  assert (Hsub : ∀ t ts a s q ot p tp,
    (∃ r, submit_order ex t ts a s q ot p tp = Returned r ex')
    ∨ (∃ e, submit_order ex t ts a s q ot p tp = Raised e ex') →
    resting_limit (order_book ex')).
  { intros t ts a s q ot p tp Hs.
    destruct (submit_order_book _ _ _ _ _ _ _ _ _ _ Hwf Hs) as [->|[tf Hm]];
      [done|].
    destruct Hwf as [Hwf Hb].
    eapply (match_order_resting_limit (_order_id_counter ex));
      [exact Hwf|exact Hb| |exact IH|exact Hm]. simpl. lia. }
  destruct Hstep as [??????????? H|??????????? H|].
  - eapply Hsub. left. by eauto.
  - eapply Hsub. right. by eauto.
  - rewrite Exchange_cancel_order_book. intros i o.
    rewrite orders_cancel_order. intros [_ Ho]%lookup_delete_Some.
    by apply (IH i).
Qed.
End reachable_books.

(** X15: Only LIMIT orders rest in the book of a reachable exchange: every
    resting order is a LIMIT order with a positive quantity, stored under
    its own id, which the counter has reached, and queued on its side in
    the level at its own price. *)
Theorem resting_orders_are_limit_orders ex i o :
  reachable ex →
  _orders (order_book ex) !! i = Some o →
  order_type o = LIMIT ∧ order_id o = i ∧ (i ≤ _order_id_counter ex)%Z
  ∧ (0 < quantity o)%Z
  ∧ ∃ l, price o = Some (limit_price l)
         ∧ parent_limit o = Some (limit_price l)
         ∧ book_side (side o) (order_book ex)
             !! book_key (side o) (limit_price l) = Some l
         ∧ i ∈ queue l.
Proof.
  intros Hr Ho. destruct (reachable_wf _ Hr) as [Hwf Hb].
  destruct (reachable_resting_limit _ Hr i o Ho) as [Ht Hp].
  destruct (bw_orders _ Hwf i o Ho) as (Hid & Hq & _).
  destruct (order_level _ i o Hwf Ho) as (l & Hpl & Hl & Hi).
  split_and!; [done..|apply Hb; by eauto|done|].
  exists l. split_and!; [congruence|done..].
Qed.

Lemma resting_orders_are_limit_orders_witness :
  let o := mkOrder 4 4 SELL 10 LIMIT (px 0) (Some (px 102)) None
                   (Some (px 102)) in
  order_type o = LIMIT ∧ order_id o = 4%Z
  ∧ (4 ≤ _order_id_counter scenario_S2)%Z
  ∧ (0 < quantity o)%Z
  ∧ ∃ l, price o = Some (limit_price l)
         ∧ parent_limit o = Some (limit_price l)
         ∧ book_side (side o) (order_book scenario_S2)
             !! book_key (side o) (limit_price l) = Some l
         ∧ 4%Z ∈ queue l.
Proof.
  intros o. apply (resting_orders_are_limit_orders scenario_S2 4 o).
  - exact scenario_S2_reachable.
  - vm_compute. reflexivity.
Defined.

(** ** Books that are not crossed *)

Section crossing.
Implicit Types (ex : Exchange) (b : OrderBook) (s : OrderSide) (l : Limit)
  (o : Order) (i j n : Z) (st : MatchState).

Lemma Qcopp_eq_0 (x : Qc) : (- x = 0 → x = 0)%Qc.
Proof. intros H. by rewrite <-(Qcopp_involutive x), H. Qed.

Lemma book_key_eq_0 s (x : Qc) : book_key s x = 0%Qc → x = 0%Qc.
Proof. destruct s; simpl; [apply Qcopp_eq_0|done]. Qed.

Lemma uncrossed_subseteq b b' :
  (∀ s, dom (book_side s b') ⊆ dom (book_side s b)) →
  uncrossed b → uncrossed b'.
Proof.
  intros Hdom [Hz Hx]. split.
  - intros s k Hk. apply (Hz s). by apply Hdom.
  - intros kb ka Hkb Hka. apply Hx; [by apply (Hdom BUY)|by apply (Hdom SELL)].
Qed.

(** What is left of a LIMIT order rests at a price that the opposite side
    does not reach, when no level of that side is at the price 0.0. *)
Lemma price_condition_false_limit b o lim :
  book_wf b → (∀ k, k ∈ dom (book_to_match b o) → k ≠ 0%Qc) →
  order_type o = LIMIT → price o = Some lim →
  price_condition b o = Ok false →
  ∀ k, k ∈ dom (book_to_match b o) →
    match side o with
    | BUY => (lim < k)%Qc
    | SELL => (- k < lim)%Qc
    end.
Proof.
  intros Hwf Hz Ht Hp. unfold price_condition, is_matchable, book_to_match.
  rewrite decide_True by done. rewrite Hp. unfold best_ask, best_bid.
  unfold book_to_match in Hz.
  destruct (side o); simpl in *.
  - pose proof (best_level _ SELL Hwf) as H. simpl in H.
    destruct (peekitem0 (asks b)) as [[k0 l0]|]; simpl.
    + destruct H as (Hl0 & -> & _ & Hleast).
      rewrite decide_False by (apply Hz; by eapply elem_of_dom_2).
      intros [= Hlt%bool_decide_eq_false] k [l Hl]%elem_of_dom.
      destruct (bw_levels _ Hwf SELL _ _ Hl) as [-> _ _ _ _ _].
      eapply Qclt_le_trans; [by apply Qcnot_le_lt|]. exact (Hleast _ l Hl).
    + intros _ k. rewrite H. set_solver.
  - pose proof (best_level _ BUY Hwf) as H. simpl in H.
    destruct (peekitem0 (bids b)) as [[k0 l0]|]; simpl.
    + destruct H as (Hl0 & -> & _ & Hleast).
      rewrite decide_False.
      2:{ intros E. apply (Hz (- limit_price l0)%Qc);
            [by eapply elem_of_dom_2|by rewrite E]. }
      intros [= Hlt%bool_decide_eq_false] k [l Hl]%elem_of_dom.
      destruct (bw_levels _ Hwf BUY _ _ Hl) as [-> _ _ _ _ _]. simpl.
      rewrite Qcopp_involutive.
      eapply Qcle_lt_trans; [|by apply Qcnot_le_lt].
      apply Qcopp_le_inv. exact (Hleast _ l Hl).
    + intros _ k. rewrite H. set_solver.
Qed.

Lemma match_order_uncrossed n b o tf b' :
  book_wf b → ids_bounded n b → (n < order_id o)%Z →
  (order_type o = LIMIT → price o ≠ Some 0%Qc) →
  uncrossed b → match_order b o = Returned tf b' → uncrossed b'.
Proof.
  intros Hwf Hb Hn Hnz Hu Hm. destruct tf as [trades filled].
  destruct (match_order_returned _ _ _ _ _ _ Hwf Hb Hn Hm)
    as (st & _ & _ & Hinv & Hwf' & Hb' & Hexit & Hrest).
  pose proof (ti_own_side _ _ _ Hinv) as Hown.
  pose proof (ti_levels _ _ _ Hinv) as Hlev.
  pose proof (ti_incoming _ _ _ Hinv) as Hinc.
  assert (Hst : uncrossed (ms_book st)).
  { eapply uncrossed_subseteq; [|exact Hu]. intros s.
    destruct (decide (s = side o)) as [->|Hs]; [by rewrite Hown|].
    assert (s = opposite (side o)) as -> by (by destruct s, (side o)).
    done. }
  case_decide as Hc; [|by rewrite Hrest].
  destruct Hc as [Hq Ht].
  destruct Hrest as (lim & Hp & _ & _ & Hopp & Hdom & _).
  destruct Hexit as [?|Hpc]; [lia|].
  assert (Hlim : lim ≠ 0%Qc).
  { intros ->. by apply Hnz. }
  destruct Hst as [Hz Hx].
  pose proof (price_condition_false_limit (ms_book st) (ms_incoming st) lim
                Hwf') as Hfar.
  rewrite Hinc in Hfar. unfold book_to_match in Hfar.
  cbn [side order_type price set_quantity] in Hfar. rewrite <-Hinc in Hfar.
  specialize (Hfar (Hz _) Ht Hp Hpc).
  destruct (side o); simpl in *.
  - split.
    + intros [] k Hk; simpl in Hk.
      * rewrite Hdom in Hk. apply elem_of_union in Hk as [->%elem_of_singleton|Hk];
          [by intros ?%Qcopp_eq_0|by apply (Hz BUY)].
      * rewrite Hopp in Hk. by apply (Hz SELL).
    + intros kb ka. rewrite Hdom, Hopp.
      intros [->%elem_of_singleton|Hkb]%elem_of_union Hka.
      * rewrite Qcopp_involutive. by apply Hfar.
      * by apply Hx.
  - split.
    + intros [] k Hk; simpl in Hk.
      * rewrite Hopp in Hk. by apply (Hz BUY).
      * rewrite Hdom in Hk. apply elem_of_union in Hk as [->%elem_of_singleton|Hk];
          [done|by apply (Hz SELL)].
    + intros kb ka. rewrite Hdom, Hopp.
      intros Hkb [->%elem_of_singleton|Hka]%elem_of_union.
      * by apply Hfar.
      * by apply Hx.
Qed.

Lemma reachable_nz_reachable ex : reachable_nz ex → reachable ex.
Proof.
  induction 1; [apply reachable_init|..];
    (eapply reachable_step; [done|]); by eauto using step.
Qed.

Lemma reachable_nz_uncrossed ex :
  reachable_nz ex → uncrossed (order_book ex).
Proof.
  induction 1 as [| ex t ts a s q ot p tp r ex' Hr IH Hnz Hs
                  | ex t ts a s q ot p tp e ex' Hr IH Hnz Hs
                  | ex id Hr IH].
  - split; [intros [] k|intros kb ka]; simpl; set_solver.
  - pose proof (reachable_wf _ (reachable_nz_reachable _ Hr)) as Hwf.
    destruct (submit_order_book ex t ts a s q ot p tp ex' Hwf)
      as [->|[tf Hm]]; [by eauto|done|].
    destruct Hwf as [Hwf Hb].
    eapply (match_order_uncrossed (_order_id_counter ex));
      [exact Hwf|exact Hb| | |exact IH|exact Hm]; [simpl; lia|done].
  - pose proof (reachable_wf _ (reachable_nz_reachable _ Hr)) as Hwf.
    destruct (submit_order_book ex t ts a s q ot p tp ex' Hwf)
      as [->|[tf Hm]]; [by eauto|done|].
    destruct Hwf as [Hwf Hb].
    eapply (match_order_uncrossed (_order_id_counter ex));
      [exact Hwf|exact Hb| | |exact IH|exact Hm]; [simpl; lia|done].
  - rewrite Exchange_cancel_order_book.
    eapply uncrossed_subseteq; [|exact IH]. intros s. apply cancel_order_dom.
Qed.
End crossing.

(** X16: The book is never crossed when no LIMIT order is submitted at the price
    0.0: the best bid stays below the best ask. *)
Theorem book_never_crossed ex pb pa :
  reachable_nz ex →
  best_bid (order_book ex) = Some pb → best_ask (order_book ex) = Some pa →
  (pb < pa)%Qc.
Proof.
  intros Hr Hb Ha.
  pose proof (reachable_nz_reachable _ Hr) as Hr'.
  destruct (reachable_nz_uncrossed _ Hr) as [_ Hx].
  destruct (best_prices_wf (order_book ex)) as [HA HB];
    [by destruct (reachable_wf _ Hr')|].
  rewrite Ha in HA. rewrite Hb in HB.
  destruct HA as [(la & Hla & _) _]. destruct HB as [(lb & Hlb & _) _].
  rewrite <-(Qcopp_involutive pb).
  apply Hx; by eapply elem_of_dom_2.
Qed.

Lemma reachable_nz_run_submit ex t ts a s q ot p tp :
  reachable_nz ex → (ot = LIMIT → p ≠ Some 0%Qc) →
  reachable_nz (run_submit ex t ts a s q ot p tp).
Proof.
  intros Hr Hp. unfold run_submit.
  destruct (submit_order ex t ts a s q ot p tp) as [r ex'|e ex'|] eqn:H;
    [|by eapply reachable_nz_raised|done].
  by eapply reachable_nz_submit.
Qed.

Lemma scenario_S1_reachable_nz : reachable_nz scenario_S1.
Proof.
  repeat (apply reachable_nz_run_submit; [|intros _; vm_compute; discriminate]).
  apply reachable_nz_init.
Qed.

Lemma book_never_crossed_witness : (px 99 < px 101)%Qc.
Proof.
  apply (book_never_crossed scenario_S1 (px 99) (px 101)).
  - exact scenario_S1_reachable_nz.
  - vm_compute. reflexivity.
  - vm_compute. reflexivity.
Defined.

(** X17: A best price of 0.0 on the opposite side counts as no price at all: a
    LIMIT order then trades with nothing, whatever its own price, and is
    added to the book as it came. *)
Theorem zero_priced_best_is_never_matched b o p :
  match side o with BUY => best_ask b | SELL => best_bid b end = Some 0%Qc →
  order_type o = LIMIT → price o = Some p → (0 < quantity o)%Z →
  _orders b !! order_id o = None →
  ∃ b', add_order b o = Ok b' ∧ match_order b o = Returned ([], []) b'.
Proof.
  intros Hbest Ht Hp Hq Hfresh.
  assert (Hpc : price_condition b o = Ok false).
  { unfold price_condition, is_matchable. rewrite decide_True by done.
    destruct (side o); rewrite Hbest; by rewrite decide_True. }
  assert (∃ b', add_order b o = Ok b') as [b' Hadd].
  { unfold add_order. rewrite decide_False by (rewrite Hfresh; by intros [??]).
    rewrite Hp. by eauto. }
  exists b'. split; [done|]. unfold match_order. rewrite Hpc. simpl.
  rewrite andb_false_r. simpl.
  rewrite bool_decide_eq_true_2, bool_decide_eq_true_2 by done. simpl.
  by rewrite Hadd.
Qed.

Lemma zero_priced_best_is_never_matched_witness :
  ∃ b', add_order (order_book scenario_zero_ask) order_zero_ask = Ok b'
    ∧ match_order (order_book scenario_zero_ask) order_zero_ask
      = Returned ([], []) b'.
Proof.
  apply (zero_priced_best_is_never_matched (order_book scenario_zero_ask)
           order_zero_ask (px 99)).
  - vm_compute. reflexivity.
  - reflexivity.
  - reflexivity.
  - simpl. lia.
  - vm_compute. reflexivity.
Defined.

(** ** Order types, termination and the compliance engine *)

(** X18: [match_order] knows two kinds of orders: LIMIT orders and the others.
    A STOP_LOSS, IOC or FOK order is matched exactly as the MARKET order
    with the same fields is: same trades, same filled makers, same book. *)
Theorem other_types_match_as_market b o :
  order_type o ≠ LIMIT →
  match_order b o = match_order b (set_order_type o MARKET).
Proof.
  intros Ht. symmetry. by apply match_order_non_limit.
Qed.

Lemma other_types_match_as_market_witness :
  match_order (order_book scenario_S1) fok_S6
  = match_order (order_book scenario_S1) (set_order_type fok_S6 MARKET).
Proof.
  apply (other_types_match_as_market (order_book scenario_S1) fok_S6).
  discriminate.
Defined.

(** X19: The loops of a submission to a reachable exchange always end: the outer
    loop needs at most one test more than there are levels on the opposite
    side, which is the bound it is given. *)
Theorem matching_always_ends ex t ts a s q ot p tp :
  reachable ex →
  ∃ ex', (∃ r, submit_order ex t ts a s q ot p tp = Returned r ex')
         ∨ (∃ e, submit_order ex t ts a s q ot p tp = Raised e ex').
Proof.
  intros Hr%reachable_wf.
  destruct (submit_order_spec ex t ts a s q ot p tp Hr) as (ex' & H & _).
  by exists ex'.
Qed.

Lemma matching_always_ends_witness :
  ∃ ex',
    (∃ r, submit_order scenario_S1 ten_am (px 0) 5 BUY 100 MARKET None None
          = Returned r ex')
    ∨ (∃ e, submit_order scenario_S1 ten_am (px 0) 5 BUY 100 MARKET None None
            = Raised e ex').
Proof.
  apply (matching_always_ends scenario_S1 ten_am (px 0) 5 BUY 100 MARKET
           None None).
  exact scenario_S1_reachable.
Defined.



(** ** The price band and the index breaker *)

Section breaker.
Implicit Types (ref p x r : float) (cat : string) (t : time).


#[local] Ltac by_computation :=
  apply (bool_decide_unpack _); vm_compute; exact I.






End breaker.





(** ** The market data feed *)

Section feed.
Context {A : Type} `{EqDecision A}.
Implicit Types (f : MarketDataFeed A) (a x y : A) (l : list A).

Lemma list_remove_Err x l e :
  list_remove x l = Err e → e = ValueError ∧ x ∉ l.
Proof.
  induction l as [|y l IH]; simpl.
  - intros [= <-]. split; [done|]. by inversion 1.
  - case_decide as Hy; [done|].
    destruct (list_remove x l) as [l'|e'] eqn:Hl; [done|].
    intros [= <-]. destruct (IH eq_refl) as [-> Hx]. split; [done|].
    rewrite not_elem_of_cons. split; [congruence|done].
Qed.

Lemma list_remove_Ok x l l' :
  list_remove x l = Ok l' →
  x ∈ l ∧ (∀ y, y ∈ l' → y ∈ l) ∧ (∀ y, y ≠ x → y ∈ l → y ∈ l')
  ∧ (NoDup l → NoDup l' ∧ x ∉ l').
Proof.
  revert l'. induction l as [|z l IH]; simpl; intros l'; [done|].
  case_decide as Hz.
  - intros [= <-]. subst z. split_and!.
    + by left.
    + intros y Hy. by right.
    + intros y Hne [->|Hy]%elem_of_cons; done.
    + intros [Hx Hnd]%NoDup_cons. done.
  - destruct (list_remove x l) as [l''|e'] eqn:Hl; [|done].
    intros [= <-]. destruct (IH _ eq_refl) as (Hx & Hsub & Hkeep & Hnd).
    split_and!.
    + by right.
    + intros y [->|Hy]%elem_of_cons; [by left|right; by apply Hsub].
    + intros y Hne [->|Hy]%elem_of_cons; [by left|right; by apply Hkeep].
    + intros [Hzl Hndl]%NoDup_cons. destruct (Hnd Hndl) as [Hnd'' Hx''].
      split.
      * apply NoDup_cons. split; [|done]. intros Hz'. by apply Hzl, Hsub.
      * rewrite not_elem_of_cons. split; [congruence|done].
Qed.

Lemma list_remove_app_fresh x l : x ∉ l → list_remove x (l ++ [x]) = Ok l.
Proof.
  induction l as [|y l IH]; simpl.
  - intros _. by rewrite decide_True.
  - rewrite not_elem_of_cons. intros [Hne Hx].
    rewrite decide_False by done. by rewrite IH.
Qed.

Lemma feed_reachable_NoDup f : feed_reachable f → NoDup (_subscribers f).
Proof.
  induction 1 as [|f a _ IH|f a f' _ IH Hu]; simpl.
  - constructor.
  - unfold subscribe. case_decide as Ha; [done|]. simpl.
    apply NoDup_app. split_and!; [done| |apply NoDup_singleton].
    intros x Hx ->%list_elem_of_singleton. done.
  - unfold unsubscribe in Hu.
    destruct (list_remove a (_subscribers f)) as [l|e] eqn:Hl; [|done].
    injection Hu as <-. simpl.
    by destruct (list_remove_Ok _ _ _ Hl) as (_ & _ & _ & [? _]).
Qed.
End feed.

(** X23: Subscribing twice is subscribing once, and unsubscribing an agent that
    has just been subscribed gives back the feed there was, with the other
    subscribers in their order. *)
Theorem subscribe_then_unsubscribe
    {A : Type} `{EqDecision A} (f : MarketDataFeed A) (a : A) :
  a ∉ _subscribers f →
  subscribe (subscribe f a) a = subscribe f a
  ∧ _subscribers (subscribe f a) = _subscribers f ++ [a]
  ∧ unsubscribe (subscribe f a) a = Ok f.
Proof.
  intros Ha.
  assert (Hs : subscribe f a = mkMarketDataFeed (_subscribers f ++ [a])).
  { unfold subscribe. by rewrite decide_False. }
  rewrite Hs. split_and!; [|done|].
  - unfold subscribe. simpl. rewrite decide_True; [done|].
    apply elem_of_app. right. by left.
  - unfold unsubscribe. simpl. rewrite list_remove_app_fresh by done.
    by destruct f.
Qed.

Lemma subscribe_then_unsubscribe_witness :
  subscribe (subscribe feed_12 3%Z) 3%Z = subscribe feed_12 3%Z
  ∧ _subscribers (subscribe feed_12 3%Z) = _subscribers feed_12 ++ [3%Z]
  ∧ unsubscribe (subscribe feed_12 3%Z) 3%Z = Ok feed_12.
Proof.
  apply (subscribe_then_unsubscribe feed_12 3%Z).
  apply (bool_decide_unpack _). vm_compute. exact I.
Defined.

Lemma feed_12_reachable : feed_reachable feed_12.
Proof. repeat apply feed_reachable_subscribe. apply feed_reachable_init. Qed.

(** X24: No agent is subscribed twice, so that a successful [unsubscribe] leaves
    no subscription of the agent behind and keeps all the others;
    [unsubscribe] raises ValueError exactly for an agent that is not
    subscribed. *)
Theorem unsubscribe_removes_the_agent
    {A : Type} `{EqDecision A} (f : MarketDataFeed A) (a : A) :
  feed_reachable f →
  NoDup (_subscribers f)
  ∧ match unsubscribe f a with
    | Ok f' =>
        a ∈ _subscribers f ∧ (a ∉ _subscribers f')
        ∧ ∀ x, x ≠ a → x ∈ _subscribers f' ↔ x ∈ _subscribers f
    | Err e => e = ValueError ∧ a ∉ _subscribers f
    end.
Proof.
  intros Hnd%feed_reachable_NoDup. split; [done|]. unfold unsubscribe.
  destruct (list_remove a (_subscribers f)) as [l|e] eqn:Hl.
  - destruct (list_remove_Ok _ _ _ Hl) as (Ha & Hsub & Hkeep & Hnd').
    simpl. split_and!; [done|by apply Hnd'|].
    intros x Hx. split; [apply Hsub|by apply Hkeep].
  - by apply list_remove_Err in Hl.
Qed.

Lemma unsubscribe_removes_the_agent_witness :
  NoDup (_subscribers feed_12)
  ∧ match unsubscribe feed_12 1%Z with
    | Ok f' =>
        1%Z ∈ _subscribers feed_12 ∧ (1%Z ∉ _subscribers f')
        ∧ ∀ x, x ≠ 1%Z → x ∈ _subscribers f' ↔ x ∈ _subscribers feed_12
    | Err e => e = ValueError ∧ 1%Z ∉ _subscribers feed_12
    end.
Proof.
  apply (unsubscribe_removes_the_agent feed_12 1%Z).
  exact feed_12_reachable.
Defined.

(** ** Orders without a price on an empty side *)

(** X25: A MARKET, STOP_LOSS or IOC order without a price that finds the
    opposite side empty is reported as accepted, trades nothing and is
    dropped: the book stays as it was, and the order's id is used up. *)
Theorem unpriced_order_on_empty_side ex t ts a s q ot tp :
  reachable ex → ot ∈ [MARKET; STOP_LOSS; IOC] →
  book_side (opposite s) (order_book ex) = ∅ →
  ∃ ex', submit_order ex t ts a s q ot None tp
         = Returned (true, order_accepted, []) ex'
    ∧ order_book ex' = order_book ex
    ∧ _order_id_counter ex' = (_order_id_counter ex + 1)%Z.
Proof.
  intros Hr Hot Hempty.
  destruct (reachable_compliance _ Hr) as (rp & sc & Hce).
  assert (Hnl : ot ≠ LIMIT).
  { intros ->. set_unfold in Hot. naive_solver. }
  assert (Hallowed : TradingSessionManager.is_order_allowed ot t = true).
  { unfold TradingSessionManager.is_order_allowed. simpl.
    apply bool_decide_eq_true. set_unfold in Hot. set_solver. }
  unfold submit_order, validate_order. rewrite Hce. simpl.
  rewrite Hallowed. simpl.
  unfold match_order. rewrite price_condition_non_limit by done.
  unfold book_to_match. simpl. rewrite Hempty.
  rewrite (bool_decide_eq_false_2 ((∅ : gmap Qc Limit) ≠ ∅))
    by (intros Hne; by apply Hne).
  simpl.
  rewrite andb_false_r. simpl.
  rewrite (bool_decide_eq_false_2 (ot = LIMIT)) by done.
  rewrite andb_false_r. simpl. by eexists.
Qed.

Lemma unpriced_order_on_empty_side_witness :
  ∃ ex', submit_order (Exchange_init (px 100) "fno_stocks") ten_am (px 0) 1
           BUY 5 MARKET None None
         = Returned (true, order_accepted, []) ex'
    ∧ order_book ex' = order_book (Exchange_init (px 100) "fno_stocks")
    ∧ _order_id_counter ex'
      = (_order_id_counter (Exchange_init (px 100) "fno_stocks") + 1)%Z.
Proof.
  apply (unpriced_order_on_empty_side (Exchange_init (px 100) "fno_stocks")
           ten_am (px 0) 1 BUY 5 MARKET None).
  - apply reachable_init.
  - set_solver.
  - reflexivity.
Defined.

(** ** A LIMIT order that has not traded *)



(** ** What [validate_order] rejects *)

(** X27: On a reachable exchange [validate_order] rejects an order in two cases
    only, whatever the time of day: its type is FOK, or it has a price other
    than 0.0 that is outside the band. The quantity, the side, a missing
    price and the trigger price play no part. *)
Theorem gate_rejects_exactly ex o t :
  reachable ex →
  validate_order (compliance_engine ex) o t = (true, order_is_compliant)
  ↔ order_type o ≠ FOK
    ∧ ∀ p, price o = Some p →
        p = 0%Qc
        ∨ check_price_band (circuit_breaker (compliance_engine ex)) p = true.
Proof.
  intros (rp & sc & ->)%reachable_compliance.
  unfold validate_order. simpl.
  unfold TradingSessionManager.is_order_allowed. simpl.
  set (cb := CircuitBreakerMonitor_init rp sc).
  assert (Hallowed : bool_decide (order_type o ∈ [LIMIT; MARKET; STOP_LOSS; IOC])
                     = bool_decide (order_type o ≠ FOK)).
  { apply bool_decide_ext. destruct (order_type o); set_unfold; naive_solver. }
  rewrite Hallowed. clear Hallowed. case_bool_decide as Hot; simpl.
  2:{ split; [done|]. by intros [? _]. }
  destruct (price o) as [p|]; simpl.
  2:{ split; [|done]. intros _. split; [done|]. by intros ? [=]. }
  case_bool_decide as Hp; simpl.
  - destruct (check_price_band cb p) eqn:Hband; simpl.
    + split; [|done]. intros _. split; [done|]. intros ? [= <-]. by right.
    + split; [done|]. intros [_ Hall].
      destruct (Hall p eq_refl) as [?|?]; [done|congruence].
  - split; [|done]. intros _. split; [done|]. intros ? [= <-]. by left.
Qed.

Lemma gate_rejects_exactly_witness :
  validate_order (compliance_engine scenario_S1) fok_S6 ten_am
  = (true, order_is_compliant)
  ↔ order_type fok_S6 ≠ FOK
    ∧ ∀ p, price fok_S6 = Some p →
        p = 0%Qc
        ∨ check_price_band (circuit_breaker (compliance_engine scenario_S1)) p
          = true.
Proof.
  apply (gate_rejects_exactly scenario_S1 fok_S6 ten_am).
  exact scenario_S1_reachable.
Defined.

(** ** The queues after a submission *)

(** X28: Matching takes orders from the head of a queue only: after an
    accepted submission every level of the opposite side holds what is left
    of its former queue once a prefix of orders, none of them in the book
    any longer, is removed (nothing, when the level itself is gone); the
    orders that stay keep their places. *)
Theorem queues_keep_their_order ex t ts a s q ot p tp reason trades ex' :
  reachable ex →
  submit_order ex t ts a s q ot p tp = Returned (true, reason, trades) ex' →
  ∀ k l, book_side (opposite s) (order_book ex) !! k = Some l →
    ∃ pre,
      queue l
      = pre ++ from_option queue []
                 (book_side (opposite s) (order_book ex') !! k)
      ∧ Forall (λ j, _orders (order_book ex') !! j = None) pre.
Proof.
  intros Hr Hs k l Hl.
  destruct (submit_order_matched _ _ _ _ _ _ _ _ _ _ _ _ Hr Hs)
    as (st & _ & Hinv & _ & _ & _ & Hrest).
  destruct (reachable_wf _ Hr) as [Hwf Hb].
  destruct (ti_queue _ _ _ Hinv k l Hl) as (pre & Hpre & Habs).
  simpl in Hpre. exists pre.
  assert (book_side (opposite s) (order_book ex')
          = book_side (opposite s) (ms_book st)) as ->.
  { case_decide; [|by rewrite Hrest].
    by destruct Hrest as (lim & _ & _ & -> & _). }
  split; [done|].
  case_decide; [|by rewrite Hrest].
  destruct Hrest as (lim & _ & -> & _).
  rewrite Forall_forall in Habs. apply Forall_forall. intros j Hj.
  rewrite lookup_insert_ne; [by apply Habs|].
  destruct (bw_levels _ Hwf _ _ _ Hl) as [_ _ _ Hos _ _].
  destruct (Hos j) as (o & Ho & _).
  { rewrite Hpre. apply elem_of_app. by left. }
  assert (j ≤ _order_id_counter ex)%Z by (apply Hb; eauto). lia.
Qed.

Lemma queues_keep_their_order_witness :
  ∃ pre,
    queue (mkLimit (px 101) 8 1 [3%Z])
    = pre ++ from_option queue []
               (book_side (opposite BUY) (order_book scenario_S2) !! px 101)
    ∧ Forall (λ j, _orders (order_book scenario_S2) !! j = None) pre.
Proof.
  apply (queues_keep_their_order scenario_S1 ten_am (px 0) 5 BUY 10
           MARKET None None order_accepted trades_S2 scenario_S2).
  - exact scenario_S1_reachable.
  - exact scenario_S2_submission.
  - vm_compute. reflexivity.
Defined.
